(** * Neurivox: the debug event bus and the automation executor

    A shallow embedding of
    - [utils/eventEmitter.ts]  (class [EventEmitter]: [on], [off], [emit]),
    - [components/AutomationActions.tsx] ([runAutomation],
      [handleRunAutomation]),
    - [services/geminiService.ts] ([getGeminiClient], [generateTextContent],
      [generateImages], [validateApiKey]),
    - the step builder of [components/AutomationActions.tsx] ([addStep],
      [removeStep]) and the log buffer of [App.tsx] and
      [components/DebuggingTools.tsx] ([handleLogDebug]),
    and the properties of the specification checked against them.

    JavaScript strings are modelled by [string]: one character per code
    unit.  Code that throws is modelled in a state-and-exception monad;
    [async]/[await] is sequential inside one run and is modelled by plain
    sequencing.  Thrown values are [Error] objects, represented by their
    message.  The registry of the bus is an object literal used as a map:
    the lookup of an event name goes through [Object.prototype], and [on],
    [off] and [emit] throw a [TypeError] where the value found is not an
    array.  The log sink and [onActionComplete] are modelled as recorders
    of what they receive; timestamps are left out.  The hosted model is a
    state machine that the development is parametric in. *)

From stdpp Require Import gmap strings list.
From Stdlib Require Import String Ascii DecimalString Lia.

(* ===================================================================== *)
(** ** Completions and the state-and-exception monad *)
(* ===================================================================== *)

Module JS.

(** How a JavaScript call completes: normally with a value, or abruptly
    with a thrown value. *)
Inductive Completion (E A : Type) : Type :=
| Normal (a : A)
| Throw (e : E).
Arguments Normal {E A} a.
Arguments Throw {E A} e.

Definition M (S E A : Type) : Type := S -> Completion E A * S.

Definition ret {S E A} (a : A) : M S E A := fun s => (Normal a, s).

Definition throw {S E A} (e : E) : M S E A := fun s => (Throw e, s).

Definition bind {S E A B} (m : M S E A) (k : A -> M S E B) : M S E B :=
  fun s =>
    match m s with
    | (Normal a, s') => k a s'
    | (Throw e, s') => (Throw e, s')
    end.

(** [try { m } catch (e) { h e }] *)
Definition try_catch {S E A} (m : M S E A) (h : E -> M S E A) : M S E A :=
  fun s =>
    match m s with
    | (Normal a, s') => (Normal a, s')
    | (Throw e, s') => h e s'
    end.

(** [try { m } finally { f }], for a [finally] block that completes
    normally. *)
Definition try_finally {S E A} (m : M S E A) (f : S -> S) : M S E A :=
  fun s => let '(c, s') := m s in (c, f s').

Definition modify {S E} (f : S -> S) : M S E unit :=
  fun s => (Normal tt, f s).

(** [Array.prototype.forEach]: the callback is applied to the elements in
    index order; a callback that throws ends the iteration. *)
Fixpoint forEach {S E A} (xs : list A) (f : A -> M S E unit) : M S E unit :=
  match xs with
  | [] => ret tt
  | x :: rest => bind (f x) (fun _ => forEach rest f)
  end.

End JS.

Import JS.

Notation "'let!' x ':=' m 'in' k" := (bind m (fun x => k))
  (at level 10, x pattern, m at level 100, k at level 200).
Notation "'run!' m 'in' k" := (bind m (fun _ => k))
  (at level 10, m at level 100, k at level 200).

(* ===================================================================== *)
(** ** utils/eventEmitter.ts *)
(* ===================================================================== *)

Module EventEmitter.

(** A listener is a JavaScript function object; [off] compares listeners
    with [!==], that is by reference, so a listener is represented by its
    reference. *)
Abbreviation Listener := nat.

(** [private listeners: EventListeners = {}]: the own properties of the
    registry object. *)
Record t : Type := { listeners : gmap string (list Listener) }.

Definition empty : t := {| listeners := ∅ |}.

(** The registry is an object literal, so it inherits the properties of
    [Object.prototype]: its methods, and the accessor [__proto__] with the
    four legacy methods that browsers define beside it. *)
Definition Object_prototype : list string :=
  ["constructor"; "hasOwnProperty"; "isPrototypeOf"; "propertyIsEnumerable";
   "toLocaleString"; "toString"; "valueOf"; "__proto__";
   "__defineGetter__"; "__defineSetter__";
   "__lookupGetter__"; "__lookupSetter__"].

Definition inherited (eventName : string) : bool :=
  existsb (String.eqb eventName) Object_prototype.

(** What [this.listeners[eventName]] evaluates to: the array of an own
    property; otherwise the value found on [Object.prototype] (a function,
    or the prototype itself for [__proto__]), which is truthy and has no
    [push], [filter] or [forEach]; otherwise [undefined]. *)
Inductive Property : Type :=
| Undefined
| Array (ls : list Listener)
| Inherited.

Definition get (this : t) (eventName : string) : Property :=
  match listeners this !! eventName with
  | Some ls => Array ls
  | None => if inherited eventName then Inherited else Undefined
  end.

(** The [TypeError] that a call of a missing method raises
    ([this.listeners[eventName].push is not a function]), by the name of
    the method. *)
Inductive TypeError : Type :=
| not_a_function (method : string).

(** [off(eventName, listener)] *)
Definition off (eventName : string) (listener : Listener) : M t TypeError unit :=
  fun this =>
    match get this eventName with
    | Undefined => (Normal tt, this)
    | Array ls =>
        (Normal tt,
         {| listeners :=
              <[eventName := filter (fun l => l ≠ listener) ls]>
                (listeners this) |})
    | Inherited => (Throw (not_a_function "filter"), this)
    end.

(** [on(eventName, listener)]: the returned closure is
    [() => this.off(eventName, listener)], which acts on the registry as it
    is when the closure is called. *)
Definition on (eventName : string) (listener : Listener)
  : M t TypeError (M t TypeError unit) :=
  fun this =>
    match get this eventName with
    | Undefined =>
        (Normal (off eventName listener),
         {| listeners := <[eventName := [] ++ [listener]]> (listeners this) |})
    | Array ls =>
        (Normal (off eventName listener),
         {| listeners := <[eventName := ls ++ [listener]]> (listeners this) |})
    | Inherited => (Throw (not_a_function "push"), this)
    end.

(** The calls of [on] and [off] made on an emitter since it was created
    ([new EventEmitter()]), and the registry that they leave.  A call that
    throws leaves the registry as it is. *)
Inductive Call : Type :=
| Subscribe (eventName : string) (listener : Listener)
| Unsubscribe (eventName : string) (listener : Listener).

Definition perform (this : t) (c : Call) : t :=
  match c with
  | Subscribe eventName listener => snd (on eventName listener this)
  | Unsubscribe eventName listener => snd (off eventName listener this)
  end.

Definition after_calls (calls : list Call) : t := fold_left perform calls empty.

Section Emit.

(** Arguments passed to the listeners, thrown values, and the part of the
    program state that is not the bus. *)
Variables Args Exn Heap : Type.

(** What a listener can read and change: the bus itself (a listener may
    subscribe, unsubscribe and publish), the console, the rest. *)
Record World : Type := {
  bus : t;
  console : list (string * Exn);
  heap : Heap;
}.

(** The body of each function object. *)
Variable body : Listener -> Args -> World -> Completion Exn unit * World.

(** The [TypeError] objects of the engine, among the values that can be
    thrown. *)
Variable type_error : TypeError -> Exn.

(** The state of one [emit]: the world, and the record of the calls
    [listener(...args)] that this [emit] made. *)
Record Run : Type := {
  world : World;
  invoked : list (Listener * Args);
}.

(** [listener(...args)] *)
Definition call (listener : Listener) (args : Args) : M Run Exn unit :=
  fun r =>
    let '(c, w) := body listener args (world r) in
    (c, {| world := w; invoked := invoked r ++ [(listener, args)] |}).

(** [console.error(`Error in event listener for ${eventName}:`, e)] *)
Definition console_error (eventName : string) (e : Exn) : M Run Exn unit :=
  modify (fun r =>
    {| world :=
         {| bus := bus (world r);
            console := console (world r) ++
              [("Error in event listener for " +:+ eventName +:+ ":", e)];
            heap := heap (world r) |};
       invoked := invoked r |}).

(** [emit(eventName, ...args)].  [forEach] fixes the range of indices
    before the first call, [on] only appends to the array and [off]
    replaces it by a new one, so the elements visited are those of the
    array as it is when [emit] starts.  The lookup and the call of
    [forEach] are outside the [try] block. *)
Definition emit (eventName : string) (args : Args) : M Run Exn unit :=
  fun r =>
    match get (bus (world r)) eventName with
    | Undefined => (Normal tt, r)
    | Array ls =>
        forEach ls
          (fun listener =>
             try_catch (call listener args)
                       (fun e => console_error eventName e)) r
    | Inherited => (Throw (type_error (not_a_function "forEach")), r)
    end.

(** The delivery to one listener, as the specification words it: the
    listener is called; when it throws, the thrown value is logged to the
    console and delivery goes on. *)
Definition deliver (eventName : string) (args : Args)
           (r : Run) (listener : Listener) : Run :=
  match body listener args (world r) with
  | (Normal _, w) =>
      {| world := w; invoked := invoked r ++ [(listener, args)] |}
  | (Throw e, w) =>
      {| world :=
           {| bus := bus w;
              console := console w ++
                [("Error in event listener for " +:+ eventName +:+ ":", e)];
              heap := heap w |};
         invoked := invoked r ++ [(listener, args)] |}
  end.

End Emit.

Arguments bus {Exn Heap} _.
Arguments console {Exn Heap} _.
Arguments heap {Exn Heap} _.
Arguments world {Args Exn Heap} _.
Arguments invoked {Args Exn Heap} _.

End EventEmitter.

(* ===================================================================== *)
(** ** JavaScript string operations used by the executor *)
(* ===================================================================== *)

Module Str.

(** The double quote and the line feed, which the template literals of the
    source contain. *)
Definition dquote : string := String (ascii_of_nat 34) EmptyString.
Definition newline : string := String (ascii_of_nat 10) EmptyString.

(** A string is falsy exactly when it is empty. *)
Definition truthy (s : string) : bool :=
  match s with EmptyString => false | String _ _ => true end.

(** [a || b] on strings *)
Definition or_else (a b : string) : string := if truthy a then a else b.

(** [s.startsWith(p)] *)
Definition startsWith (s p : string) : bool := String.prefix p s.

(** [s.includes(sub)] *)
Fixpoint includes (s sub : string) : bool :=
  String.prefix sub s ||
  match s with
  | EmptyString => false
  | String _ rest => includes rest sub
  end.

(** [s.substring(0, n)] *)
Definition substring0 (n : nat) (s : string) : string := String.substring 0 n s.

(** White space and line terminators of ECMAScript among the code units
    below 256: TAB, LF, VT, FF, CR, SP, NBSP. *)
Definition is_whitespace (c : ascii) : bool :=
  match N_of_ascii c with
  | 9 | 10 | 11 | 12 | 13 | 32 | 160 => true
  | _ => false
  end%N.

Fixpoint trimStart (s : string) : string :=
  match s with
  | EmptyString => EmptyString
  | String c rest => if is_whitespace c then trimStart rest else s
  end.

Fixpoint trimEnd (s : string) : string :=
  match s with
  | EmptyString => EmptyString
  | String c rest =>
      match trimEnd rest with
      | EmptyString => if is_whitespace c then EmptyString else String c EmptyString
      | kept => String c kept
      end
  end.

(** [s.trim()] *)
Definition trim (s : string) : string := trimEnd (trimStart s).

(** [s.split(sep)] for a one-character separator *)
Fixpoint split (sep : ascii) (s : string) : list string :=
  match s with
  | EmptyString => [EmptyString]
  | String c rest =>
      if Ascii.eqb c sep then EmptyString :: split sep rest
      else match split sep rest with
           | [] => [String c EmptyString]
           | hd :: tl => String c hd :: tl
           end
  end.

(** [`${n}`] for a non-negative integer *)
Definition of_nat (n : nat) : string := NilEmpty.string_of_uint (Nat.to_uint n).

End Str.

(* ===================================================================== *)
(** ** types.ts *)
(* ===================================================================== *)

Inductive DebugLogLevel : Type :=
| INFO | WARNING | ERROR | API_CALL | API_RESPONSE
| API_KEY_MISSING | MODEL_SELECTION | CONTEXT_MEMORY | AUTOMATION_STEP | UI_EVENT.

Definition DebugLogLevel_eqb (a b : DebugLogLevel) : bool :=
  match a, b with
  | INFO, INFO | WARNING, WARNING | ERROR, ERROR | API_CALL, API_CALL
  | API_RESPONSE, API_RESPONSE | API_KEY_MISSING, API_KEY_MISSING
  | MODEL_SELECTION, MODEL_SELECTION | CONTEXT_MEMORY, CONTEXT_MEMORY
  | AUTOMATION_STEP, AUTOMATION_STEP | UI_EVENT, UI_EVENT => true
  | _, _ => false
  end.

(** [AutomationStep]; [inputKey] and [outputKey] are never read.  The only
    option the executor reads is the flag [emojiMode], so option values are
    booleans here. *)
Record AutomationStep : Type := {
  actionId : string;
  options : option (gmap string bool);
}.

(** The fields of [AIAction] that the executor reads. *)
Record AIAction : Type := {
  id : string;
  name : string;
  description : string;
}.

(** The [details] payloads that the executor and the text service attach. *)
Inductive Details : Type :=
| NoDetails
| StartDetails (initialInput : string) (steps : list AutomationStep)
| StepDetails (actionId input : string) (options : option (gmap string bool))
| OutputDetails (output : string)
| FinalDetails (finalOutput : string)
| ErrorDetails (error : string)
| ApiCallDetails (prompt : option string) (systemInstruction : string)
| ApiResponseDetails (response : option string).

(** [DebugLogEntry], without its [timestamp]. *)
Record DebugLogEntry : Type := {
  entry_id : string;
  level : DebugLogLevel;
  message : string;
  details : Details;
}.

(* ===================================================================== *)
(** ** services/geminiService.ts and components/AutomationActions.tsx *)
(* ===================================================================== *)

Module Automation.

Import Str.

(** *** The hosted model, as the SDK presents it *)

Record InlineData : Type := {
  mimeType : option string;
  data : option string;
}.

Inductive Part : Type :=
| InlinePart (inlineData : InlineData)
| TextPart (text : string).

Inductive Contents : Type :=
| PromptContents (prompt : string)
| PartsContents (parts : list Part).

Record Config : Type := {
  systemInstruction : option string;
  responseModalities : option (list string);
}.

Record GenerateContentParameters : Type := {
  model : string;
  contents : Contents;
  config : option Config;
}.

(** A part of the first candidate of a response. *)
Inductive ResponsePart : Type :=
| ResponseText (text : string)
| ResponseInline (data : string).

(** [GenerateContentResponse]: its [text] accessor (which may yield
    [undefined]) and the parts of its first candidate. *)
Record GenerateContentResponse : Type := {
  text : option string;
  parts : list ResponsePart;
}.

(** How a promise of the SDK settles; a rejection carries an [Error] with
    the given message. *)
Inductive Settled (A : Type) : Type :=
| Fulfilled (a : A)
| Rejected (reason : string).
Arguments Fulfilled {A} a.
Arguments Rejected {A} reason.

(** What [generateImages] resolves to: [string[] | GenerateContentResponse]. *)
Inductive ImagesResult : Type :=
| ImageUrls (urls : list string)
| ContentResponse (response : GenerateContentResponse).

(** *** The calls of the service functions, as an observer records them *)

Inductive Request : Type :=
| TextRequest (model prompt systemInstruction : string)
| ImagesRequest (model prompt : string) (imagePart : option InlineData).

Inductive Reply : Type :=
| TextReply (text : option string)
| ImagesReply (result : ImagesResult).

Record Invocation : Type := {
  request : Request;
  outcome : Completion string Reply;
}.

(** *** The state of the component *)

Record UIState : Type := {
  automationOutput : string;
  isLoading : bool;
  error : option string;
  isApiKeyMissing : bool;
}.

Definition initialUI : UIState :=
  {| automationOutput := EmptyString; isLoading := false;
     error := None; isApiKeyMissing := false |}.

(** The environment a run reads: [process.env.API_KEY] (empty when unset),
    [localStorage.getItem('apiKey_gemini')], the reading of [Date.now()]
    and the rendering of an elapsed time. *)
Record Env : Type := {
  API_KEY : string;
  apiKey_gemini : option string;
  now : nat;
  elapsed : string;
}.

Section Run.

(** The state of the hosted service and its two entry points. *)
Variable Remote : Type.
Variable models_generateContent :
  GenerateContentParameters -> Remote ->
  Settled GenerateContentResponse * Remote.
Variable models_generateImages :
  string -> string -> Remote -> Settled (list string) * Remote.

Variable env : Env.

(** [WORKSPACES.flatMap(ws => ws.availableActions)] *)
Variable allAvailableActions : list AIAction.

(** The props and the state that the callback closes over. *)
Variable automationName : string.
Variable steps : list AutomationStep.
Variable initialAutomationInput : string.

(** Everything a run changes.  [logs] are the entries handed to [log], in
    order; [completed] are the arguments of [onActionComplete];
    [invocations] are the calls of [generateTextContent] and
    [generateImages], in the order in which they settled. *)
Record World : Type := {
  remote : Remote;
  ui : UIState;
  logs : list DebugLogEntry;
  console : list (string * string);
  completed : list string;
  invocations : list Invocation;
}.

(** Thrown values are [Error] objects; an error is its message. *)
Definition Exec (A : Type) : Type := M World string A.

Definition set_ui (f : UIState -> UIState) : Exec unit :=
  modify (fun w =>
    {| remote := remote w; ui := f (ui w); logs := logs w;
       console := console w; completed := completed w;
       invocations := invocations w |}).

Definition setIsLoading (b : bool) : Exec unit :=
  set_ui (fun u =>
    {| automationOutput := automationOutput u; isLoading := b;
       error := error u; isApiKeyMissing := isApiKeyMissing u |}).

Definition setError (e : option string) : Exec unit :=
  set_ui (fun u =>
    {| automationOutput := automationOutput u; isLoading := isLoading u;
       error := e; isApiKeyMissing := isApiKeyMissing u |}).

Definition setAutomationOutput (s : string) : Exec unit :=
  set_ui (fun u =>
    {| automationOutput := s; isLoading := isLoading u;
       error := error u; isApiKeyMissing := isApiKeyMissing u |}).

Definition setIsApiKeyMissing (b : bool) : Exec unit :=
  set_ui (fun u =>
    {| automationOutput := automationOutput u; isLoading := isLoading u;
       error := error u; isApiKeyMissing := b |}).

(** [log(entry)]: the sink ([onLogDebug], or [globalEmitter.emit] on
    ['debugLog']) receives the entry. *)
Definition log (entry : DebugLogEntry) : Exec unit :=
  modify (fun w =>
    {| remote := remote w; ui := ui w; logs := logs w ++ [entry];
       console := console w; completed := completed w;
       invocations := invocations w |}).

Definition console_error (label err : string) : Exec unit :=
  modify (fun w =>
    {| remote := remote w; ui := ui w; logs := logs w;
       console := console w ++ [(label, err)]; completed := completed w;
       invocations := invocations w |}).

(** [onActionComplete?.(result)] *)
Definition onActionComplete (result : string) : Exec unit :=
  modify (fun w =>
    {| remote := remote w; ui := ui w; logs := logs w;
       console := console w; completed := completed w ++ [result];
       invocations := invocations w |}).

Definition record (i : Invocation) (w : World) : World :=
  {| remote := remote w; ui := ui w; logs := logs w;
     console := console w; completed := completed w;
     invocations := invocations w ++ [i] |}.

Definition reply_of {A} (wrap : A -> Reply) (c : Completion string A)
  : Completion string Reply :=
  match c with
  | Normal a => Normal (wrap a)
  | Throw e => Throw e
  end.

(** A service function observed: when it settles, the call and its
    outcome are recorded. *)
Definition observed {A} (req : Request) (wrap : A -> Reply) (m : Exec A)
  : Exec A :=
  fun w =>
    let '(c, w') := m w in
    (c, record {| request := req; outcome := reply_of wrap c |} w').

(** [await p] for a promise of the SDK. *)
Definition await {A} (call : Remote -> Settled A * Remote) : Exec A :=
  fun w =>
    let '(s, r) := call (remote w) in
    let w' := {| remote := r; ui := ui w; logs := logs w;
                 console := console w; completed := completed w;
                 invocations := invocations w |} in
    match s with
    | Fulfilled a => (Normal a, w')
    | Rejected reason => (Throw reason, w')
    end.

(** [error.message || String(error)] for an [Error] with message [m] *)
Definition message_or_string (m : string) : string := or_else m "Error".

(** *** services/geminiService.ts *)

(** [getGeminiClient()]; the client is represented by its key. *)
Definition getGeminiClient : Exec string :=
  let apiKeyToUse := or_else (default EmptyString (apiKey_gemini env)) (API_KEY env) in
  if negb (truthy apiKeyToUse) then
    throw "Gemini API Key is not configured. Please ensure your API key is set in the environment or in the API Configurator."
  else ret apiKeyToUse.

(** [generateTextContent({ model, prompt, systemInstruction, onLogDebug:
    log })]; the result is the [text] of the returned object. *)
Definition generateTextContent (model prompt systemInstruction : string)
  : Exec (option string) :=
  observed (TextRequest model prompt systemInstruction) TextReply
    (let! _ai := getGeminiClient in
     let debugId := "text-gen-" +:+ of_nat (now env) in
     try_catch
       (let config :=
          if truthy systemInstruction
          then Some {| systemInstruction := Some systemInstruction;
                       responseModalities := None |}
          else None in
        let generateParams :=
          {| model := model; contents := PromptContents prompt;
             config := config |} in
        run! log {| entry_id := debugId; level := API_CALL;
                    message := "Calling generateContent for model: " +:+ model;
                    details := ApiCallDetails
                                 (if truthy prompt then Some prompt else None)
                                 systemInstruction |} in
        let! response := await (models_generateContent generateParams) in
        let text := text response in
        run! log {| entry_id := debugId; level := API_RESPONSE;
                    message := "generateContent succeeded (latency: "
                                 +:+ elapsed env +:+ "ms)";
                    details := ApiResponseDetails text |} in
        ret text)
       (fun error =>
          run! log {| entry_id := debugId; level := ERROR;
                      message := "generateContent failed (latency: "
                                   +:+ elapsed env +:+ "ms)";
                      details := ErrorDetails (message_or_string error) |} in
          run! console_error "Error generating text content:" error in
          throw ("Failed to generate content: " +:+ error))).

(** [generateImages({ model, prompt, imagePart })], with the defaults of
    [numberOfImages] and [aspectRatio]. *)
Definition generateImages (model prompt : string) (imagePart : option InlineData)
  : Exec ImagesResult :=
  observed (ImagesRequest model prompt imagePart) ImagesReply
    (let! _ai := getGeminiClient in
     try_catch
       (if String.eqb model "imagen-4.0-generate-001" then
          let! images :=
            await (models_generateImages model (or_else prompt "a picture")) in
          ret (ImageUrls (map (fun b => "data:image/png;base64," +:+ b) images))
        else if String.eqb model "gemini-2.5-flash-image" then
          let contentsParts :=
            match imagePart with Some p => [InlinePart p] | None => [] end ++
            (if truthy prompt then [TextPart prompt] else []) in
          let! response :=
            await (models_generateContent
              {| model := model; contents := PartsContents contentsParts;
                 config := Some {| systemInstruction := None;
                                   responseModalities :=
                                     match imagePart with
                                     | Some _ => None
                                     | None => Some ["IMAGE"]
                                     end |} |}) in
          match imagePart, parts response with
          | None, ResponseInline _ :: _ =>
              ret (ImageUrls
                     (omap (fun p => match p with
                                     | ResponseInline d =>
                                         Some ("data:image/png;base64," +:+ d)
                                     | ResponseText _ => None
                                     end) (parts response)))
          | _, _ => ret (ContentResponse response)
          end
        else throw ("Unsupported image generation model: " +:+ model))
       (fun error =>
          run! console_error "Error generating image content:" error in
          throw ("Failed to generate image: " +:+ error))).

(** *** components/AutomationActions.tsx *)

Definition DEFAULT_AI_MODEL : string := "gemini-2.5-flash".

Definition automationDebugId : string := "automation-" +:+ of_nat (now env).

(** [allAvailableActions.find(a => a.id === actionId)] *)
Definition find_action (actionId : string) : option AIAction :=
  List.find (fun a => String.eqb (id a) actionId) allAvailableActions.

(** [text.trim()] on the [text] of a reply, which throws a [TypeError]
    when [text] is [undefined]. *)
Definition trim_text (text : option string) : Exec string :=
  match text with
  | Some t => ret (trim t)
  | None => throw "Cannot read properties of undefined (reading 'trim')"
  end.

(** The prompt of the social commenter. *)
Definition social_prompt (emojiMode : bool) (currentInput : string) : string :=
  (if emojiMode
   then "Given the following social media post, generate a short, polite, context-relevant, and concise comment using ONLY emojis (1-3 emojis max)."
   else "Given the following social media post, generate a short, polite, coherent, and concise comment (max 20 words).")
  +:+ newline +:+ "            Post: " +:+ dquote +:+ currentInput +:+ dquote.

(** [stepOutput.substring(0, 100) + (stepOutput.length > 100 ? '...' : '')] *)
Definition preview (stepOutput : string) : string :=
  substring0 100 stepOutput +:+
  (if 100 <? String.length stepOutput then "..." else EmptyString).

(** The messages of the errors that a step throws. *)
Definition invalid_action_message (step : AutomationStep) (i : nat) : string :=
  "Invalid action ID: " +:+ actionId step +:+ " at step " +:+ of_nat (i + 1).

Definition vision_requires_image : string :=
  "Vision Integration requires an image input (base64 data URL). Current input is not an image.".

Definition text_action_on_image (action : AIAction) : string :=
  "Text-based action '" +:+ name action
  +:+ "' cannot process image input from previous step.".

(** The two entries that a step logs. *)
Definition executing_entry (i : nat) (action : AIAction) (step : AutomationStep)
           (currentInput : string) : DebugLogEntry :=
  {| entry_id := automationDebugId; level := INFO;
     message := "Executing step " +:+ of_nat (i + 1) +:+ ": " +:+ name action;
     details := StepDetails (id action) currentInput (options step) |}.

Definition completed_entry (i : nat) (stepOutput : string) : DebugLogEntry :=
  {| entry_id := automationDebugId; level := INFO;
     message := "Step " +:+ of_nat (i + 1) +:+ " completed.";
     details := OutputDetails (preview stepOutput) |}.

(** The image part that the vision step builds from [currentInput]. *)
Definition image_part (currentInput : string) : InlineData :=
  {| mimeType := split ":" (hd EmptyString (split ";" currentInput)) !! 1;
     data := split "," currentInput !! 1 |}.

(** The three branches of a step, each yielding [stepOutput] and the new
    value of [isInputImage]. *)
Definition vision_step (currentInput : string) : Exec (string * bool) :=
  if negb (startsWith currentInput "data:image/") then
    throw vision_requires_image
  else
    let imagePart := image_part currentInput in
    let! response :=
      generateImages "gemini-2.5-flash-image" "Describe this image in detail."
                     (Some imagePart) in
    match response with
    | ContentResponse r =>
        let! stepOutput := trim_text (text r) in
        ret (stepOutput, false)
    | ImageUrls _ =>
        throw "Vision integration did not return expected text output."
    end.

Definition social_step (action : AIAction) (step : AutomationStep)
           (currentInput : string) : Exec (string * bool) :=
  let emojiMode := default false (options step ≫= (.!! "emojiMode")) in
  let prompt := social_prompt emojiMode currentInput in
  let! text := generateTextContent DEFAULT_AI_MODEL prompt (description action) in
  let! stepOutput := trim_text text in
  ret (stepOutput, false).

Definition text_step (action : AIAction) (currentInput : string)
           (isInputImage : bool) : Exec (string * bool) :=
  if isInputImage then
    throw (text_action_on_image action)
  else
    let! text := generateTextContent DEFAULT_AI_MODEL currentInput (description action) in
    let! stepOutput := trim_text text in
    ret (stepOutput, false).

(** One iteration of the [for] loop: the new [currentInput] and
    [isInputImage]. *)
Definition step_body (i : nat) (step : AutomationStep)
           (currentInput : string) (isInputImage : bool)
  : Exec (string * bool) :=
  match find_action (actionId step) with
  | None => throw (invalid_action_message step i)
  | Some action =>
      run! log (executing_entry i action step currentInput) in
      let! branch :=
        (if String.eqb (id action) "vision-integration" then
           vision_step currentInput
         else if String.eqb (id action) "social-commenter" then
           social_step action step currentInput
         else text_step action currentInput isInputImage) in
      let stepOutput := fst branch in
      let isInputImage := snd branch in
      run! log (completed_entry i stepOutput) in
      let currentInput := stepOutput in
      ret (currentInput,
           if startsWith currentInput "data:image/" then true else isInputImage)
  end.

(** [for (let i = 0; i < steps.length; i++) { ... }], from index [i] on
    the remaining steps; the value is [currentInput] and [isInputImage] at
    the exit of the loop. *)
Fixpoint loop (i : nat) (remaining : list AutomationStep)
         (currentInput : string) (isInputImage : bool) : Exec (string * bool) :=
  match remaining with
  | [] => ret (currentInput, isInputImage)
  | step :: rest =>
      let! next := step_body i step currentInput isInputImage in
      loop (S i) rest (fst next) (snd next)
  end.

Definition displayName : string := or_else automationName "Untitled Automation".

Definition apiKeyNotConfigured : string :=
  "API Key is not configured. Please ensure your API key is set in the environment.".

(** The entries that [runAutomation] logs outside the loop. *)
Definition starting_entry : DebugLogEntry :=
  {| entry_id := automationDebugId; level := INFO;
     message := "Starting automation: " +:+ displayName;
     details := StartDetails initialAutomationInput steps |}.

Definition api_key_missing_entry : DebugLogEntry :=
  {| entry_id := automationDebugId; level := ERROR;
     message := "Automation failed: API Key missing.";
     details := NoDetails |}.

Definition finished_entry (currentInput : string) : DebugLogEntry :=
  {| entry_id := automationDebugId; level := INFO;
     message := "Automation " +:+ dquote +:+ displayName +:+ dquote
                  +:+ " finished successfully.";
     details := FinalDetails currentInput |}.

Definition failed_entry (err : string) : DebugLogEntry :=
  {| entry_id := automationDebugId; level := ERROR;
     message := "Automation " +:+ dquote +:+ displayName +:+ dquote +:+ " failed.";
     details := ErrorDetails (message_or_string err) |}.

(** [runAutomation()] *)
Definition runAutomation : Exec unit :=
  run! setIsLoading true in
  run! setError None in
  run! setAutomationOutput EmptyString in
  run! log starting_entry in
  try_finally
    (try_catch
       (if negb (truthy (API_KEY env)) then
          run! setIsApiKeyMissing true in
          run! setError (Some apiKeyNotConfigured) in
          log api_key_missing_entry
        else
          run! setIsApiKeyMissing false in
          let! final := loop 0 steps initialAutomationInput false in
          let currentInput := fst final in
          run! setAutomationOutput currentInput in
          run! onActionComplete
                 ("Automation " +:+ dquote +:+ automationName +:+ dquote
                  +:+ " completed.") in
          log (finished_entry currentInput))
       (fun err =>
          run! console_error "Error running automation:" err in
          run! (if includes err "API Key is not configured" then
                  run! setIsApiKeyMissing true in
                  setError (Some apiKeyNotConfigured)
                else
                  setError (Some ("Failed to run automation: " +:+ err))) in
          log (failed_entry err)))
    (fun w =>
       {| remote := remote w;
          ui := {| automationOutput := automationOutput (ui w);
                   isLoading := false; error := error (ui w);
                   isApiKeyMissing := isApiKeyMissing (ui w) |};
          logs := logs w; console := console w; completed := completed w;
          invocations := invocations w |}).

(** [handleRunAutomation()] *)
Definition handleRunAutomation : Exec unit :=
  if Nat.eqb (List.length steps) 0 then
    setError (Some "Please add at least one step to the automation.")
  else if negb (truthy (trim initialAutomationInput)) then
    setError (Some "Please provide initial input for the automation.")
  else runAutomation.

End Run.

Arguments remote {Remote} _.
Arguments ui {Remote} _.
Arguments logs {Remote} _.
Arguments console {Remote} _.
Arguments completed {Remote} _.
Arguments invocations {Remote} _.

End Automation.

(* ===================================================================== *)
(** ** What an observer of a run sees *)
(* ===================================================================== *)

Module Observe.

Import Str Automation.

(** The text that the outcome of a service call carries, if any. *)
Definition reply_text (c : Completion string Reply) : option string :=
  match c with
  | Normal (TextReply t) => t
  | Normal (ImagesReply (ContentResponse r)) => text r
  | Normal (ImagesReply (ImageUrls _)) => None
  | Throw _ => None
  end.

(** The request that a step with the given action sends for a payload:
    the three calls of the service in [vision_step], [social_step] and
    [text_step]. *)
Definition request_for (action : AIAction) (step : AutomationStep)
           (payload : string) : Request :=
  if String.eqb (id action) "vision-integration" then
    ImagesRequest "gemini-2.5-flash-image" "Describe this image in detail."
                  (Some (image_part payload))
  else if String.eqb (id action) "social-commenter" then
    TextRequest DEFAULT_AI_MODEL
                (social_prompt (default false (options step ≫= (.!! "emojiMode")))
                               payload)
                (description action)
  else TextRequest DEFAULT_AI_MODEL payload (description action).

(** The error message that the [catch] block of [runAutomation] puts on
    display for a caught error with message [err]. *)
Definition shown_error (err : string) : string :=
  if includes err "API Key is not configured" then apiKeyNotConfigured
  else "Failed to run automation: " +:+ err.

(** Entries logged by the text service rather than by the executor. *)
Definition service_entry (e : DebugLogEntry) : bool :=
  match level e with
  | API_CALL | API_RESPONSE | ERROR => true
  | _ => false
  end.

(** The entries of the executor, told apart by level and message. *)
Definition is_step_start (e : DebugLogEntry) : bool :=
  DebugLogLevel_eqb (level e) INFO && String.prefix "Executing step " (message e).

Definition is_step_completion (e : DebugLogEntry) : bool :=
  DebugLogLevel_eqb (level e) INFO && String.prefix "Step " (message e).

Definition is_terminal_success (e : DebugLogEntry) : bool :=
  DebugLogLevel_eqb (level e) INFO && String.prefix "Automation " (message e).

Definition is_automation_step_level (e : DebugLogEntry) : bool :=
  DebugLogLevel_eqb (level e) AUTOMATION_STEP.

Fixpoint count_entries (p : DebugLogEntry -> bool) (l : list DebugLogEntry) : nat :=
  match l with
  | [] => 0
  | e :: rest => (if p e then 1 else 0) + count_entries p rest
  end.

(** The payload after the service calls [invs], starting from [p]. *)
Definition final_payload (p : string) (invs : list Invocation) : string :=
  fold_left
    (fun p inv =>
       match reply_text (outcome inv) with
       | Some t => trim t
       | None => p
       end) invs p.

(** A string that is empty or consists of white space only. *)
Fixpoint blank (s : string) : bool :=
  match s with
  | EmptyString => true
  | String c rest => is_whitespace c && blank rest
  end.

Section Threading.

Variable allAvailableActions : list AIAction.

(** [Threaded p steps invs]: the service calls [invs] are those of a run of
    [steps] that starts with payload [p].  The call of a step carries the
    request built from the current payload; the payload of the next step is
    the text of the reply with the white space at both ends removed.  The
    calls end where the run ends. *)
Inductive Threaded : string -> list AutomationStep -> list Invocation -> Prop :=
| Threaded_end p steps : Threaded p steps []
| Threaded_last p step rest action inv :
    find_action allAvailableActions (actionId step) = Some action ->
    request inv = request_for action step p ->
    Threaded p (step :: rest) [inv]
| Threaded_next p step rest action inv t invs :
    find_action allAvailableActions (actionId step) = Some action ->
    request inv = request_for action step p ->
    reply_text (outcome inv) = Some t ->
    Threaded (trim t) rest invs ->
    Threaded p (step :: rest) (inv :: invs).

End Threading.

Section Worlds.

Context {Remote : Type}.
Variable env : Env.

Local Abbreviation World := (World Remote).

(** What a call changes besides the log and the record of calls: nothing
    that the executor reads back. *)
Definition same_ui (w w' : World) : Prop :=
  ui w' = ui w /\ completed w' = completed w.

(** The world after [log(entry)]. *)
Definition logged (entry : DebugLogEntry) (w : World) : World :=
  {| remote := remote w; ui := ui w; logs := logs w ++ [entry];
     console := console w; completed := completed w;
     invocations := invocations w |}.

(** A step that is refused before its capability is called. *)
Definition refused (action : AIAction) (cur : string) (img : bool)
           (c : Completion string (string * bool)) : Prop :=
  (id action = "vision-integration"
   /\ startsWith cur "data:image/" = false
   /\ c = Throw vision_requires_image)
  \/ (id action <> "vision-integration"
      /\ id action <> "social-commenter"
      /\ img = true
      /\ c = Throw (text_action_on_image action)).

(** A step whose capability was called, with outcome [oc]. *)
Definition called (i : nat) (action : AIAction) (step : AutomationStep)
           (cur : string) (img : bool) (w w' : World)
           (c : Completion string (string * bool)) : Prop :=
  exists oc mid,
    invocations w'
    = invocations w ++ [{| request := request_for action step cur; outcome := oc |}]
    /\ forallb service_entry mid = true
    /\ match c with
       | Normal (out, img') =>
           exists t, reply_text oc = Some t /\ out = trim t
                     /\ img' = startsWith out "data:image/"
                     /\ logs w' = logs w ++ [executing_entry env i action step cur]
                                   ++ mid ++ [completed_entry env i out]
       | Throw e =>
           logs w' = logs w ++ [executing_entry env i action step cur] ++ mid
       end.

(** The world when the loop starts: the state is reset and the start of the
    run is logged. *)
Definition prepared (name : string) (steps : list AutomationStep)
           (input : string) (w : World) : World :=
  {| remote := remote w;
     ui := {| automationOutput := EmptyString; isLoading := true;
              error := None; isApiKeyMissing := false |};
     logs := logs w ++ [starting_entry env name steps input];
     console := console w; completed := completed w;
     invocations := invocations w |}.

(** The world when [runAutomation] returns, from the outcome of the loop. *)
Definition concluded (name : string)
           (r : Completion string (string * bool) * World) : World :=
  match r with
  | (Normal final, w) =>
      {| remote := remote w;
         ui := {| automationOutput := fst final; isLoading := false;
                  error := error (ui w);
                  isApiKeyMissing := isApiKeyMissing (ui w) |};
         logs := logs w ++ [finished_entry env name (fst final)];
         console := console w;
         completed := completed w
           ++ ["Automation " +:+ dquote +:+ name +:+ dquote +:+ " completed."];
         invocations := invocations w |}
  | (Throw err, w) =>
      {| remote := remote w;
         ui := {| automationOutput := automationOutput (ui w); isLoading := false;
                  error := Some (shown_error err);
                  isApiKeyMissing :=
                    if includes err "API Key is not configured" then true
                    else isApiKeyMissing (ui w) |};
         logs := logs w ++ [failed_entry env name err];
         console := console w ++ [("Error running automation:", err)];
         completed := completed w;
         invocations := invocations w |}
  end.

End Worlds.

End Observe.

(* ===================================================================== *)
(** ** Test doubles and concrete pipelines *)
(* ===================================================================== *)

Module Scenario.

Import Automation.

(** Four of the actions of [WORKSPACES] (constants.ts). *)
Definition catalog : list AIAction :=
  [ {| id := "summarize"; name := "Summariser";
       description := "Summarise any text or webpage (3-5 key ideas)." |};
    {| id := "translator"; name := "Translator";
       description := "Translate text between major languages (auto-detect input)." |};
    {| id := "social-commenter"; name := "Social Media Commenter";
       description := "Reply to posts with short, context-relevant comments." |};
    {| id := "vision-integration";
       name := "Vision Integration (OCR + Image Understanding)";
       description := "Upload an image or screenshot and ask AI to describe its content." |} ].

(** A hosted model that answers from a script, one entry per call. *)
Definition Script : Type := list (Settled GenerateContentResponse).

Definition scripted (_ : GenerateContentParameters) (s : Script)
  : Settled GenerateContentResponse * Script :=
  match s with
  | [] => (Rejected "script exhausted", [])
  | answer :: rest => (answer, rest)
  end.

Definition no_images (_ _ : string) (s : Script) : Settled (list string) * Script :=
  (Rejected "not available", s).

Definition says (t : string) : Settled GenerateContentResponse :=
  Fulfilled {| text := Some t; parts := [] |}.

Definition env0 : Env :=
  {| API_KEY := "key"; apiKey_gemini := None; now := 1700; elapsed := "1.00" |}.

Definition start (s : Script) : World Script :=
  {| remote := s; ui := initialUI; logs := []; console := [];
     completed := []; invocations := [] |}.

Definition step (a : string) : AutomationStep :=
  {| actionId := a; options := None |}.

Definition run (steps : list AutomationStep) (input : string) (s : Script)
  : Completion string unit * World Script :=
  runAutomation Script scripted no_images env0 catalog "demo" steps input (start s).

(** An output of 110 characters. *)
Definition long_text : string :=
  "0123456789012345678901234567890123456789012345678901234567890123456789012345678901234567890123456789!!!!!!!!!!".

Definition handle (steps : list AutomationStep) (input : string) (s : Script)
  : Completion string unit * World Script :=
  handleRunAutomation Script scripted no_images env0 catalog "demo" steps input (start s).

(** Listeners for the bus: listener 1 always throws, every other listener
    returns. *)
Definition throwing_body (l : EventEmitter.Listener) (_ : string)
           (w : EventEmitter.World string unit)
  : Completion string unit * EventEmitter.World string unit :=
  if Nat.eqb l 1 then (Throw "boom", w) else (Normal tt, w).

(** The message of a [TypeError] of the bus, where thrown values are
    represented by their message. *)
Definition type_error_message (e : EventEmitter.TypeError) : string :=
  match e with
  | EventEmitter.not_a_function method =>
      "this.listeners[eventName]." +:+ method +:+ " is not a function"
  end.

Definition bus_with (ls : list EventEmitter.Listener)
  : EventEmitter.Run string string unit :=
  {| EventEmitter.world :=
       {| EventEmitter.bus :=
            {| EventEmitter.listeners := {[ "debugLog" := ls ]} |};
          EventEmitter.console := [];
          EventEmitter.heap := tt |};
     EventEmitter.invoked := [] |}.

End Scenario.

(* ===================================================================== *)
(** ** The step builder of components/AutomationActions.tsx *)
(* ===================================================================== *)

Module Builder.

(** The step that [addStep] appends: [{ actionId: '', options: {} }]. *)
Definition newStep : AutomationStep :=
  {| actionId := EmptyString; options := Some ∅ |}.

(** [addStep()], as a function of the [steps] state. *)
Definition addStep (steps : list AutomationStep) : list AutomationStep :=
  if List.length steps <? 3 then steps ++ [newStep] else steps.

(** [array.filter((_, i) => keep(i))], the indices counted from [i]. *)
Fixpoint filter_index {A} (keep : nat -> bool) (i : nat) (l : list A) : list A :=
  match l with
  | [] => []
  | x :: rest =>
      if keep i then x :: filter_index keep (S i) rest
      else filter_index keep (S i) rest
  end.

(** [removeStep(index)] *)
Definition removeStep (index : nat) (steps : list AutomationStep)
  : list AutomationStep :=
  filter_index (fun i => negb (Nat.eqb i index)) 0 steps.

(** The two edits of the step list that the builder offers besides changing
    a field of a step. *)
Inductive Edit : Type :=
| Add
| Remove (index : nat).

Definition edit (steps : list AutomationStep) (e : Edit) : list AutomationStep :=
  match e with
  | Add => addStep steps
  | Remove index => removeStep index steps
  end.

End Builder.

(* ===================================================================== *)
(** ** The log buffer of App.tsx and components/DebuggingTools.tsx *)
(* ===================================================================== *)

Module AppLog.

(** [l.slice(-n)]: the last [n] elements, all of them when there are fewer. *)
Definition slice_last {A} (n : nat) (l : list A) : list A :=
  drop (List.length l - n) l.

(** [handleLogDebug(entry)], as the function that [setDebugLogs] applies to
    the previous logs: [[...prevLogs, entry].slice(-50)]. *)
Definition handleLogDebug (entry : DebugLogEntry) (prevLogs : list DebugLogEntry)
  : list DebugLogEntry :=
  slice_last 50 (prevLogs ++ [entry]).

Section Subscribed.

(** Thrown values, the listener of the application
    ([globalEmitter.on('debugLog', handleLogDebug)]) and the bodies of all
    other listeners.  The part of the state that is not the bus is the
    [debugLogs] state of the application. *)
Variable Exn : Type.
Variable app : EventEmitter.Listener.
Variable others :
  EventEmitter.Listener -> DebugLogEntry ->
  EventEmitter.World Exn (list DebugLogEntry) ->
  Completion Exn unit * EventEmitter.World Exn (list DebugLogEntry).

Definition bodies (l : EventEmitter.Listener) (entry : DebugLogEntry)
           (w : EventEmitter.World Exn (list DebugLogEntry))
  : Completion Exn unit * EventEmitter.World Exn (list DebugLogEntry) :=
  if Nat.eqb l app then
    (Normal tt,
     {| EventEmitter.bus := EventEmitter.bus w;
        EventEmitter.console := EventEmitter.console w;
        EventEmitter.heap := handleLogDebug entry (EventEmitter.heap w) |})
  else others l entry w.

End Subscribed.

(** A call of [on] or of an unsubscribe function between two publications:
    the registry of the run changes, nothing else. *)
Definition on_bus {Args Exn Heap} (f : EventEmitter.t -> EventEmitter.t)
           (r : EventEmitter.Run Args Exn Heap) : EventEmitter.Run Args Exn Heap :=
  {| EventEmitter.world :=
       {| EventEmitter.bus := f (EventEmitter.bus (EventEmitter.world r));
          EventEmitter.console := EventEmitter.console (EventEmitter.world r);
          EventEmitter.heap := EventEmitter.heap (EventEmitter.world r) |};
     EventEmitter.invoked := EventEmitter.invoked r |}.

End AppLog.

(* ===================================================================== *)
(** ** Shapes of strings *)
(* ===================================================================== *)

Module Shape.

Import Str.

(** [s.includes(c)] for one character. *)
Fixpoint has_char (c : ascii) (s : string) : bool :=
  match s with
  | EmptyString => false
  | String a rest => Ascii.eqb a c || has_char c rest
  end.

Definition first_char (s : string) : option ascii :=
  match s with
  | EmptyString => None
  | String a _ => Some a
  end.

Fixpoint last_char (s : string) : option ascii :=
  match s with
  | EmptyString => None
  | String a EmptyString => Some a
  | String _ rest => last_char rest
  end.

(** A string with no white space at either end. *)
Definition trimmed (s : string) : bool :=
  match first_char s, last_char s with
  | Some a, Some b => negb (is_whitespace a) && negb (is_whitespace b)
  | _, _ => true
  end.

(** [`data:${mime};base64,${data}`] *)
Definition data_url (mime data : string) : string :=
  "data:" +:+ mime +:+ ";base64," +:+ data.

End Shape.

(* ===================================================================== *)
(** ** The key and the request of the text service *)
(* ===================================================================== *)

Module Service.

Import Str Automation.

(** The key that [getGeminiClient()] uses, empty when none is configured:
    [localStorage.getItem('apiKey_gemini') || process.env.API_KEY]. *)
Definition configured_key (env : Env) : string :=
  or_else (default EmptyString (apiKey_gemini env)) (API_KEY env).

Definition not_configured : string :=
  "Gemini API Key is not configured. Please ensure your API key is set in the environment or in the API Configurator.".

(** The parameters that [generateTextContent] passes to the SDK. *)
Definition text_parameters (model prompt systemInstruction : string)
  : GenerateContentParameters :=
  {| model := model; contents := PromptContents prompt;
     config := if truthy systemInstruction
               then Some {| Automation.systemInstruction := Some systemInstruction;
                            responseModalities := None |}
               else None |}.

(** The phrase by which the [catch] block of [runAutomation] recognises a
    missing key. *)
Definition key_phrase : string := "API Key is not configured".

Definition dead_vision_error : string :=
  "Vision integration did not return expected text output.".

End Service.

(* ===================================================================== *)
(** ** validateApiKey of services/geminiService.ts *)
(* ===================================================================== *)

Module Validation.

Import Str Automation Service.

(** The errors with which the SDK rejects: [Error] objects with a name, a
    message and, for the errors of the API, a status. *)
Record ApiError : Type := {
  status : option nat;
  error_name : string;
  error_message : string;
}.

(** [String(error)], that is [Error.prototype.toString]. *)
Definition error_to_string (e : ApiError) : string :=
  if truthy (error_name e) then
    if truthy (error_message e) then error_name e +:+ ": " +:+ error_message e
    else error_name e
  else error_message e.

(** [c.toLowerCase()] on the code units below 256. *)
Definition lower_char (c : ascii) : ascii :=
  let n := nat_of_ascii c in
  if ((65 <=? n) && (n <=? 90))
     || ((192 <=? n) && (n <=? 222) && negb (Nat.eqb n 215))
  then ascii_of_nat (n + 32) else c.

Fixpoint toLowerCase (s : string) : string :=
  match s with
  | EmptyString => EmptyString
  | String c rest => String (lower_char c) (toLowerCase rest)
  end.

Inductive ValidationDetails : Type :=
| StatusDetails (status : string)
| EmptyDetails
| FailureDetails (error status : string).

Record ValidationEntry : Type := {
  v_id : string;
  v_level : DebugLogLevel;
  v_message : string;
  v_details : ValidationDetails;
}.

Inductive Answer : Type :=
| Answered
| Refused (error : ApiError).

Definition quota_exceeded : string :=
  "API Key validation failed: You have exceeded your current quota. Please check your Google AI Studio plan and billing details. For more information, visit: https://ai.google.dev/gemini-api/docs/billing".

Definition key_invalid : string :=
  "API Key validation failed: The provided API key is invalid. Please double-check your key.".

Definition entity_not_found : string :=
  "API Key validation failed: Requested entity was not found. This might indicate an invalid or improperly selected API key.".

Definition key_not_configured : string :=
  "API Key is not configured. Please ensure your API key is set in the environment or selected via AI Studio.".

(** The message that the second [catch] block of [validateApiKey] throws
    for a caught [error]. *)
Definition failure_message (error : ApiError) : string :=
  let errorString := toLowerCase (error_to_string error) in
  if match status error with Some 429 => true | _ => false end
     && includes errorString "resource_exhausted"
  then quota_exceeded
  else if includes errorString "api key not valid"
          || includes errorString "invalid api key"
  then key_invalid
  else if includes errorString "requested entity was not found"
  then entity_not_found
  else if includes errorString "api key is not configured"
  then key_not_configured
  else "API key validation failed: "
       +:+ or_else (error_message error) (error_to_string error).

Section Validate.

(** The state of the hosted service and the test call that the client built
    with a key makes. *)
Variable Remote : Type.
Variable test_call : string -> Remote -> Answer * Remote.
Variable env : Env.

(** What a validation changes: the hosted service, the entries handed to
    [onLogDebug], the console. *)
Record World : Type := {
  v_remote : Remote;
  v_logs : list ValidationEntry;
  v_console : list (string * ApiError);
}.

(** The key that [getGeminiClient(dynamicApiKey)] uses, empty when none is
    configured. *)
Definition key_for (dynamicApiKey : option string) : string :=
  or_else (default EmptyString dynamicApiKey) (configured_key env).

(** [validateApiKey(dynamicApiKey, onLogDebug)] *)
Definition validateApiKey (dynamicApiKey : option string) : M World string bool :=
  fun w =>
    let key := key_for dynamicApiKey in
    if negb (truthy key) then
      let errorMessage := or_else not_configured "API Key is not configured." in
      (Throw errorMessage,
       {| v_remote := v_remote w;
          v_logs := v_logs w ++
            [{| v_id := "api-key-validation-get-client-fail-" +:+ of_nat (now env);
                v_level := API_KEY_MISSING;
                v_message := "API key validation failed: " +:+ errorMessage;
                v_details := StatusDetails "not_configured" |}];
          v_console := v_console w |})
    else
      let debugId := "api-key-validation-" +:+ of_nat (now env) in
      let attempt :=
        {| v_id := debugId; v_level := API_CALL;
           v_message := "Attempting to validate API key with a test API call...";
           v_details := EmptyDetails |} in
      match test_call key (v_remote w) with
      | (Answered, r) =>
          (Normal true,
           {| v_remote := r;
              v_logs := v_logs w ++
                [attempt;
                 {| v_id := debugId; v_level := INFO;
                    v_message := "API key validation succeeded (latency: "
                                   +:+ elapsed env +:+ "ms).";
                    v_details := StatusDetails "valid" |}];
              v_console := v_console w |})
      | (Refused error, r) =>
          let errorMessage := failure_message error in
          (Throw errorMessage,
           {| v_remote := r;
              v_logs := v_logs w ++
                [attempt;
                 {| v_id := debugId; v_level := ERROR;
                    v_message := "API key validation failed (latency: "
                                   +:+ elapsed env +:+ "ms).";
                    v_details := FailureDetails errorMessage "invalid" |}];
              v_console := v_console w ++ [("API Key validation failed:", error)] |})
      end.

End Validate.

Arguments v_remote {Remote} _.
Arguments v_logs {Remote} _.
Arguments v_console {Remote} _.

End Validation.

(* ===================================================================== *)
(** ** More test doubles *)
(* ===================================================================== *)

Module Fixtures.

Import Automation Validation.

(** An environment without any key, and one with a key in local storage
    only. *)
Definition no_key_env : Env :=
  {| API_KEY := EmptyString; apiKey_gemini := None; now := 1700;
     elapsed := "1.00" |}.

Definition stored_key_env : Env :=
  {| API_KEY := EmptyString; apiKey_gemini := Some "stored"; now := 1700;
     elapsed := "1.00" |}.

Definition ui_entry (n : nat) : DebugLogEntry :=
  {| entry_id := "ui-" +:+ Str.of_nat n; level := UI_EVENT;
     message := "event"; details := NoDetails |}.

(** Listeners other than the one of the application: they all throw. *)
Definition noisy (_ : EventEmitter.Listener) (_ : DebugLogEntry)
           (w : EventEmitter.World string (list DebugLogEntry))
  : Completion string unit * EventEmitter.World string (list DebugLogEntry) :=
  (Throw "boom", w).

(** A bus with the listeners 3, 7 and 5 on ['debugLog'] and a full buffer
    of 50 entries. *)
Definition app_bus : EventEmitter.Run DebugLogEntry string (list DebugLogEntry) :=
  {| EventEmitter.world :=
       {| EventEmitter.bus :=
            {| EventEmitter.listeners := {[ "debugLog" := [3; 7; 5] ]} |};
          EventEmitter.console := [];
          EventEmitter.heap := repeat (ui_entry 0) 50 |};
     EventEmitter.invoked := [] |}.

(** A hosted service that refuses every test call with a quota error. *)
Definition out_of_quota (_ : string) (r : nat) : Answer * nat :=
  (Refused {| status := Some 429; error_name := "ApiError";
              error_message := "RESOURCE_EXHAUSTED" |}, S r).

End Fixtures.

(* ===================================================================== *)
(** ** Properties of the event bus *)
(* ===================================================================== *)

Module EventEmitterProps.

Import EventEmitter.

Section Lookup.

Implicit Types (this : t) (eventName : string) (listener : Listener).

(** Under a name that is not inherited, the lookup finds the own array or
    [undefined]. *)
Lemma get_own eventName this :
  inherited eventName = false ->
  get this eventName
  = match listeners this !! eventName with
    | Some ls => Array ls
    | None => Undefined
    end.
Proof.
  intros H. unfold get. rewrite H.
  destruct (listeners this !! eventName); reflexivity.
Qed.

Lemma get_inherited eventName this :
  inherited eventName = true ->
  listeners this !! eventName = None ->
  get this eventName = Inherited.
Proof. intros H E. unfold get. by rewrite E, H. Qed.

End Lookup.

Section Subscribe.

Implicit Types (this : t) (eventName : string) (listener : Listener).

Lemma filter_ne_idemp listener (ls : list Listener) :
  filter (fun l => l ≠ listener) (filter (fun l => l ≠ listener) ls)
  = filter (fun l => l ≠ listener) ls.
Proof.
  induction ls as [|x ls IH]; [reflexivity|].
  rewrite (filter_cons _ x ls).
  destruct (decide (x ≠ listener)) as [Hx|Hx].
  - rewrite filter_cons. destruct (decide (x ≠ listener)); [|done].
    by rewrite IH.
  - apply IH.
Qed.

Lemma filter_ne_absent listener (ls : list Listener) :
  listener ∉ ls -> filter (fun l => l ≠ listener) ls = ls.
Proof.
  induction ls as [|x ls IH]; intros Hnot; [reflexivity|].
  apply not_elem_of_cons in Hnot as [Hne Hnot].
  rewrite filter_cons. destruct (decide (x ≠ listener)); [|done].
  by rewrite IH.
Qed.

Lemma filter_ne_snoc listener (ls : list Listener) :
  filter (fun l => l ≠ listener) (ls ++ [listener])
  = filter (fun l => l ≠ listener) ls.
Proof.
  rewrite filter_app, filter_cons, filter_nil.
  destruct (decide (listener ≠ listener)); [done|].
  by rewrite app_nil_r.
Qed.

(** [on] under a name that is not inherited: it returns the closure of
    [off] and appends the listener. *)
Lemma on_normal eventName listener this :
  inherited eventName = false ->
  on eventName listener this
  = (Normal (off eventName listener),
     {| listeners :=
          <[eventName := default [] (listeners this !! eventName) ++ [listener]]>
            (listeners this) |}).
Proof.
  intros H. unfold on. rewrite get_own by done.
  destruct (listeners this !! eventName); reflexivity.
Qed.

(** [off] throws only under an inherited name. *)
Lemma off_normal eventName listener this :
  inherited eventName = false ->
  fst (off eventName listener this) = Normal tt.
Proof.
  intros H. unfold off. rewrite get_own by done.
  destruct (listeners this !! eventName); reflexivity.
Qed.

Lemma off_lookup eventName listener this :
  listeners (snd (off eventName listener this)) !! eventName
  = filter (fun l => l ≠ listener) <$> listeners this !! eventName.
Proof.
  unfold off, get.
  destruct (listeners this !! eventName) as [ls|] eqn:E; simpl.
  - by rewrite lookup_insert_eq.
  - destruct (inherited eventName); simpl; by rewrite E.
Qed.

Lemma off_lookup_ne eventName other listener this :
  other ≠ eventName ->
  listeners (snd (off eventName listener this)) !! other
  = listeners this !! other.
Proof.
  intros Hne. unfold off, get.
  destruct (listeners this !! eventName) as [ls|]; simpl.
  - by rewrite lookup_insert_ne.
  - destruct (inherited eventName); reflexivity.
Qed.

(** [off] is idempotent. *)
Lemma off_off eventName listener this :
  off eventName listener (snd (off eventName listener this))
  = (fst (off eventName listener this), snd (off eventName listener this)).
Proof.
  unfold off, get.
  destruct (listeners this !! eventName) as [ls|] eqn:E; simpl.
  - rewrite lookup_insert_eq, insert_insert_eq, filter_ne_idemp. reflexivity.
  - destruct (inherited eventName); simpl; by rewrite E.
Qed.

(** The own properties of a registry are never under an inherited name:
    [on] and [off] throw before they assign. *)
Lemma perform_keeps_inherited_absent this c name :
  inherited name = true ->
  listeners this !! name = None ->
  listeners (perform this c) !! name = None.
Proof.
  intros Hn Hnone.
  destruct c as [eventName listener | eventName listener]; simpl.
  - destruct (decide (name = eventName)) as [->|Hne].
    + unfold on. by rewrite get_inherited.
    + unfold on. destruct (get this eventName); simpl;
        rewrite ?lookup_insert_ne by done; exact Hnone.
  - destruct (decide (name = eventName)) as [->|Hne].
    + by rewrite off_lookup, Hnone.
    + by rewrite off_lookup_ne.
Qed.

Lemma inherited_names_never_registered calls name :
  inherited name = true ->
  listeners (after_calls calls) !! name = None.
Proof.
  intros Hn. unfold after_calls.
  assert (G : forall this, listeners this !! name = None ->
                           listeners (fold_left perform calls this) !! name = None).
  { induction calls as [|c calls IH]; intros this H; simpl; [exact H|].
    apply IH. by apply perform_keeps_inherited_absent. }
  apply G. apply lookup_empty.
Qed.

(** C9, as amended. Under an event name that is not inherited, [on]
    returns normally, appends the listener to the list of the name and
    leaves the other names alone.  The closure that it returns acts on the
    registry as it is when the closure is called, whatever was subscribed
    and unsubscribed in between: it returns normally, removes EVERY
    registration of that listener function under that event name (so also
    registrations of the same function made by other calls of [on]), keeps
    the registrations of other listeners under that name in order, and
    leaves every other event name alone; calling it again then changes
    nothing.  Called right after [on], it leaves the earlier registrations
    of the other listeners. *)
Theorem unsubscribe_removes_listener_everywhere eventName listener this :
  inherited eventName = false ->
  let before := default [] (listeners this !! eventName) in
  exists unsubscribe subscribed,
    on eventName listener this = (Normal unsubscribe, subscribed)
    /\ listeners subscribed !! eventName = Some (before ++ [listener])
    /\ (forall other, other ≠ eventName ->
          listeners subscribed !! other = listeners this !! other)
    /\ (exists after,
          unsubscribe subscribed = (Normal tt, after)
          /\ listeners after !! eventName
             = Some (filter (fun l => l ≠ listener) before)
          /\ (forall other, other ≠ eventName ->
                listeners after !! other = listeners this !! other))
    /\ (forall later : t,
          exists after,
            unsubscribe later = (Normal tt, after)
            /\ listeners after !! eventName
               = filter (fun l => l ≠ listener) <$> listeners later !! eventName
            /\ (forall other, other ≠ eventName ->
                  listeners after !! other = listeners later !! other)
            /\ unsubscribe after = (Normal tt, after)).
Proof.
  intros Hn before. subst before.
  assert (Hoff : forall later,
            off eventName listener later
            = (Normal tt, snd (off eventName listener later))).
  { intros later. rewrite <- (off_normal eventName listener later Hn).
    by destruct (off eventName listener later). }
  eexists _, _. split; [apply on_normal; exact Hn|].
  split; [simpl; by rewrite lookup_insert_eq|].
  split; [intros other Hne; simpl; by rewrite lookup_insert_ne|].
  split.
  - eexists. split; [apply Hoff|]. split.
    + rewrite off_lookup. simpl. rewrite lookup_insert_eq. simpl.
      by rewrite filter_ne_snoc.
    + intros other Hne. rewrite off_lookup_ne by done. simpl.
      by rewrite lookup_insert_ne.
  - intros later. eexists. split; [apply Hoff|].
    split; [apply off_lookup|].
    split; [intros other Hne; by apply off_lookup_ne|].
    rewrite off_off, off_normal by done. reflexivity.
Qed.

(** When the listener function was not registered under the event name
    before, unsubscribing right away removes exactly the registration just
    made. *)
Lemma unsubscribe_fresh_listener eventName listener this :
  inherited eventName = false ->
  listener ∉ default [] (listeners this !! eventName) ->
  listeners (snd (off eventName listener (snd (on eventName listener this))))
    !! eventName
  = Some (default [] (listeners this !! eventName)).
Proof.
  intros Hn Hfresh. rewrite on_normal by done. simpl.
  rewrite off_lookup. simpl. rewrite lookup_insert_eq. simpl.
  by rewrite filter_ne_snoc, filter_ne_absent.
Qed.

End Subscribe.

Section Publish.

Context {Args Exn Heap : Type}.
Variable body :
  Listener -> Args -> World Exn Heap -> Completion Exn unit * World Exn Heap.
Variable type_error : TypeError -> Exn.

Local Abbreviation deliver := (deliver Args Exn Heap body).
Local Abbreviation emit := (emit Args Exn Heap body type_error).
Local Abbreviation guarded name args :=
  (fun listener =>
     try_catch (call Args Exn Heap body listener args)
               (fun e => console_error Args Exn Heap name e)).

(** The guarded call of one listener always completes normally, in the
    state that [deliver] describes. *)
Lemma guarded_call_normal name args l r :
  guarded name args l r = (Normal tt, deliver name args r l).
Proof.
  unfold try_catch, call, EventEmitter.deliver, console_error, modify.
  destruct (body l args (world r)) as [[[]|e] w]; reflexivity.
Qed.

Lemma forEach_guarded name args ls : forall r,
  forEach ls (guarded name args) r
  = (Normal tt, fold_left (deliver name args) ls r).
Proof.
  induction ls as [|l ls IH]; intros r; simpl.
  - reflexivity.
  - unfold bind. rewrite guarded_call_normal. apply IH.
Qed.

Lemma deliver_invoked name args r l :
  invoked (deliver name args r l) = invoked r ++ [(l, args)].
Proof.
  unfold EventEmitter.deliver.
  destruct (body l args (world r)) as [[[]|e] w]; reflexivity.
Qed.

Lemma fold_deliver_invoked name args ls : forall r,
  invoked (fold_left (deliver name args) ls r)
  = invoked r ++ map (fun l => (l, args)) ls.
Proof.
  induction ls as [|l ls IH]; intros r; simpl.
  - by rewrite app_nil_r.
  - rewrite IH, deliver_invoked, <- app_assoc. reflexivity.
Qed.

(** A listener that throws leaves one line on the console, after whatever
    it wrote itself, and the delivery goes on from there. *)
Lemma deliver_throw_logged name args r l e w :
  body l args (world r) = (Throw e, w) ->
  console (world (deliver name args r l))
  = console w ++ [("Error in event listener for " +:+ name +:+ ":", e)]
  /\ bus (world (deliver name args r l)) = bus w
  /\ heap (world (deliver name args r l)) = heap w.
Proof. intros H. unfold EventEmitter.deliver. rewrite H. auto. Qed.

Lemma deliver_normal_unlogged name args r l w :
  body l args (world r) = (Normal tt, w) ->
  world (deliver name args r l) = w.
Proof. intros H. unfold EventEmitter.deliver. rewrite H. reflexivity. Qed.

(** Publishing under a name that has an own array delivers to its
    elements, one after the other. *)
Lemma emit_own_list name args ls (r : Run Args Exn Heap) :
  listeners (bus (world r)) !! name = Some ls ->
  emit name args r = (Normal tt, fold_left (deliver name args) ls r).
Proof.
  intros H. unfold EventEmitter.emit, get. rewrite H. apply forEach_guarded.
Qed.

(** Publishing under a name that is not inherited and has no array does
    nothing. *)
Lemma emit_unregistered name args (r : Run Args Exn Heap) :
  inherited name = false ->
  listeners (bus (world r)) !! name = None ->
  emit name args r = (Normal tt, r).
Proof.
  intros Hn H. unfold EventEmitter.emit. rewrite get_own by done.
  by rewrite H.
Qed.

(** C1 (defect of the code). Publishing can throw: on an emitter on which
    any calls of [on] and [off] have been made since it was created,
    [emit] under a name that the registry object inherits from
    [Object.prototype] (['toString'], ['constructor'], ...) throws a
    [TypeError] to the publisher, because the value found is not an array
    and the call of [forEach] is outside the [try] block; no listener is
    called and nothing is written to the console. *)
Theorem emit_throws_under_inherited_name
        (calls : list Call) (c : list (string * Exn)) (h : Heap)
        (called : list (Listener * Args)) eventName args :
  inherited eventName = true ->
  let r := {| world := {| bus := after_calls calls; console := c; heap := h |};
              invoked := called |} in
  emit eventName args r = (Throw (type_error (not_a_function "forEach")), r).
Proof.
  intros Hn r. unfold EventEmitter.emit. subst r. cbn [world bus].
  rewrite get_inherited; [reflexivity | exact Hn |].
  by apply inherited_names_never_registered.
Qed.

End Publish.

(** With listeners 1 and 2 registered, where 1 always throws: both are
    called, in order, the error of 1 is on the console, [emit] returns. *)
Example emit_with_throwing_listener :
  emit string string unit Scenario.throwing_body Scenario.type_error_message
       "debugLog" "entry" (Scenario.bus_with [1; 2; 1; 3])
  = (Normal tt,
     {| world :=
          {| bus := {| listeners := {[ "debugLog" := [1; 2; 1; 3] ]} |};
             console :=
               [("Error in event listener for debugLog:", "boom");
                ("Error in event listener for debugLog:", "boom")];
             heap := tt |};
        invoked := [(1, "entry"); (2, "entry"); (1, "entry"); (3, "entry")] |}).
Proof.
  unfold emit, get, Scenario.bus_with. simpl.
  rewrite lookup_singleton_eq. reflexivity.
Qed.

(** C9 fails as stated: the same function registered twice under one name;
    the closure returned by the second [on] removes both registrations, not
    only its own, whereas removing exactly that registration would leave
    the first one in place. *)
Lemma unsubscribe_removes_duplicates :
  exists first once unsubscribe twice after,
    on "debugLog" 7 empty = (Normal first, once)
    /\ on "debugLog" 7 once = (Normal unsubscribe, twice)
    /\ unsubscribe twice = (Normal tt, after)
    /\ listeners once !! "debugLog" = Some [7]
    /\ listeners twice !! "debugLog" = Some [7; 7]
    /\ listeners after !! "debugLog" = Some []
    /\ listeners after !! "debugLog" <> listeners once !! "debugLog".
Proof.
  set (once := snd (on "debugLog" 7 empty)).
  set (twice := snd (on "debugLog" 7 once)).
  set (after := snd (off "debugLog" 7 twice)).
  assert (E1 : on "debugLog" 7 empty = (Normal (off "debugLog" 7), once)).
  { unfold once. by rewrite on_normal. }
  assert (E2 : on "debugLog" 7 once = (Normal (off "debugLog" 7), twice)).
  { unfold twice. by rewrite on_normal. }
  assert (E3 : off "debugLog" 7 twice = (Normal tt, after)).
  { unfold after. rewrite <- (off_normal "debugLog" 7 twice eq_refl).
    by destruct (off "debugLog" 7 twice). }
  assert (H1 : listeners once !! "debugLog" = Some [7]).
  { unfold once. rewrite on_normal by reflexivity. simpl.
    by rewrite lookup_insert_eq, lookup_empty. }
  assert (H2 : listeners twice !! "debugLog" = Some [7; 7]).
  { unfold twice. rewrite on_normal by reflexivity. simpl.
    by rewrite lookup_insert_eq, H1. }
  assert (H3 : listeners after !! "debugLog" = Some []).
  { unfold after. by rewrite off_lookup, H2. }
  exists (off "debugLog" 7), once, (off "debugLog" 7), twice, after.
  rewrite H1, H3. repeat split; try assumption. discriminate.
Qed.

End EventEmitterProps.

(* ===================================================================== *)
(** ** Properties of the automation executor *)
(* ===================================================================== *)

Module AutomationProps.

Import Str Automation Observe.

Section Run.

Context {Remote : Type}.
Variable models_generateContent :
  GenerateContentParameters -> Remote -> Settled GenerateContentResponse * Remote.
Variable models_generateImages :
  string -> string -> Remote -> Settled (list string) * Remote.
Variable env : Env.
Variable allAvailableActions : list AIAction.

Local Abbreviation World := (World Remote).
Local Abbreviation generateTextContent :=
  (generateTextContent Remote models_generateContent env).
Local Abbreviation generateImages :=
  (generateImages Remote models_generateContent models_generateImages env).
Local Abbreviation step_body :=
  (step_body Remote models_generateContent models_generateImages env
             allAvailableActions).
Local Abbreviation loop :=
  (loop Remote models_generateContent models_generateImages env
        allAvailableActions).
Local Abbreviation find_action := (find_action allAvailableActions).
Local Abbreviation called := (called env).
Local Abbreviation prepared := (prepared env).
Local Abbreviation concluded := (concluded env).
Local Abbreviation runAutomation :=
  (runAutomation Remote models_generateContent models_generateImages env
                 allAvailableActions).
Local Abbreviation handleRunAutomation :=
  (handleRunAutomation Remote models_generateContent models_generateImages env
                       allAvailableActions).

(** The text service settles once, records its call, and logs entries of
    its own levels only. *)
Lemma generateTextContent_spec model prompt sys (w : World) :
  exists c w' new,
    generateTextContent model prompt sys w = (c, w')
    /\ invocations w'
       = invocations w
         ++ [{| request := TextRequest model prompt sys;
                outcome := reply_of TextReply c |}]
    /\ logs w' = logs w ++ new
    /\ forallb service_entry new = true
    /\ same_ui w w'.
Proof.
  unfold Automation.generateTextContent, observed, bind, getGeminiClient.
  destruct (negb _); simpl.
  - eexists _, _, []. split; [reflexivity|]. simpl.
    rewrite app_nil_r. repeat split.
  - unfold try_catch, bind, log, modify, await. simpl.
    destruct (models_generateContent _ _) as [[resp|reason] r']; simpl.
    + eexists _, _, _. split; [reflexivity|]. simpl.
      split; [reflexivity|]. split; [by rewrite <- app_assoc|].
      repeat split.
    + eexists _, _, _. split; [reflexivity|]. simpl.
      split; [reflexivity|]. split; [by rewrite <- !app_assoc|].
      repeat split.
Qed.

Lemma generateImages_spec model prompt part (w : World) :
  exists c w',
    generateImages model prompt part w = (c, w')
    /\ invocations w'
       = invocations w
         ++ [{| request := ImagesRequest model prompt part;
                outcome := reply_of ImagesReply c |}]
    /\ logs w' = logs w
    /\ same_ui w w'.
Proof.
  unfold Automation.generateImages, observed, bind, getGeminiClient.
  destruct (negb _); simpl.
  - eexists _, _. split; [reflexivity|]. repeat split.
  - unfold try_catch, bind, await, throw, ret, console_error, modify.
    destruct (String.eqb model _).
    + destruct (models_generateImages _ _ _) as [[imgs|reason] r']; simpl;
        (eexists _, _; split; [reflexivity|]; repeat split).
    + destruct (String.eqb model _).
      * destruct (models_generateContent _ _) as [[resp|reason] r']; simpl.
        -- destruct part as [p|]; [|destruct (parts resp) as [|[t|d] ps]]; simpl;
             (eexists _, _; split; [reflexivity|]; repeat split).
        -- eexists _, _; split; [reflexivity|]; repeat split.
      * simpl. eexists _, _; split; [reflexivity|]; repeat split.
Qed.

Lemma bind_log {A} entry (k : unit -> Exec Remote A) (w : World) :
  bind (log Remote entry) k w = k tt (logged entry w).
Proof. reflexivity. Qed.

Lemma step_body_unknown i step cur img (w : World) :
  find_action (actionId step) = None ->
  step_body i step cur img w = (Throw (invalid_action_message step i), w).
Proof. intros H. unfold Automation.step_body. rewrite H. reflexivity. Qed.

Ltac step_done :=
  repeat match goal with
         | H : invocations _ = _ |- _ => rewrite H; clear H
         | H : logs _ = _ |- _ => rewrite H; clear H
         end;
  simpl; rewrite ?app_nil_r, <- ?app_assoc; repeat split; try done.

Lemma step_body_found i step action cur img (w : World) :
  find_action (actionId step) = Some action ->
  exists c w',
    step_body i step cur img w = (c, w')
    /\ same_ui w w'
    /\ ((refused action cur img c
         /\ invocations w' = invocations w
         /\ logs w' = logs w ++ [executing_entry env i action step cur])
        \/ called i action step cur img w w' c).
Proof.
  intros Hfind. unfold Automation.step_body. rewrite Hfind.
  rewrite bind_log. set (w1 := logged _ w).
  unfold called, request_for. unfold bind at 1.
  destruct (String.eqb (id action) "vision-integration") eqn:Ev.
  - apply String.eqb_eq in Ev. unfold vision_step.
    destruct (startsWith cur "data:image/") eqn:Es; cbn [negb]; cbv beta iota.
    + destruct (generateImages_spec "gemini-2.5-flash-image"
                  "Describe this image in detail." (Some (image_part cur)) w1)
        as (c & w' & Hrun & Hinv & Hlogs & Hui1 & Hui2).
      unfold bind at 1. rewrite Hrun.
      destruct c as [[urls|resp]|e]; [| destruct (text resp) as [t|] eqn:Et |];
        simpl; (eexists _, _; split; [reflexivity|]; split; [done|]; right).
      * exists (Normal (ImagesReply (ImageUrls urls))), []. step_done.
      * exists (Normal (ImagesReply (ContentResponse resp))), []. step_done.
        exists t. rewrite Et. step_done.
        by destruct (startsWith (trim t) "data:image/").
      * exists (Normal (ImagesReply (ContentResponse resp))), []. step_done.
      * exists (Throw e), []. step_done.
    + eexists _, _. split; [reflexivity|]. split; [done|]. left.
      split; [left; done|]. done.
  - apply String.eqb_neq in Ev.
    destruct (String.eqb (id action) "social-commenter") eqn:Eso.
    + unfold social_step.
      destruct (generateTextContent_spec DEFAULT_AI_MODEL
                  (social_prompt (default false (options step ≫= (.!! "emojiMode"))) cur)
                  (description action) w1)
        as (c & w' & new & Hrun & Hinv & Hlogs & Hnew & Hui1 & Hui2).
      unfold bind at 1. rewrite Hrun.
      destruct c as [[t|]|e]; simpl;
        (eexists _, _; split; [reflexivity|]; split; [done|]; right).
      * exists (Normal (TextReply (Some t))), new. step_done.
        exists t. step_done.
        by destruct (startsWith (trim t) "data:image/").
      * exists (Normal (TextReply None)), new. step_done.
      * exists (Throw e), new. step_done.
    + apply String.eqb_neq in Eso. unfold text_step.
      destruct img.
      * eexists _, _. split; [reflexivity|]. split; [done|]. left.
        split; [right; done|]. done.
      * destruct (generateTextContent_spec DEFAULT_AI_MODEL cur
                    (description action) w1)
          as (c & w' & new & Hrun & Hinv & Hlogs & Hnew & Hui1 & Hui2).
        unfold bind at 1. rewrite Hrun.
        destruct c as [[t|]|e]; simpl;
          (eexists _, _; split; [reflexivity|]; split; [done|]; right).
        -- exists (Normal (TextReply (Some t))), new. step_done.
           exists t. step_done.
           by destruct (startsWith (trim t) "data:image/").
        -- exists (Normal (TextReply None)), new. step_done.
        -- exists (Throw e), new. step_done.
Qed.

(** A step that is refused throws before the service is called: only the
    start entry is logged. *)
Lemma step_body_refused i step action cur img c (w : World) :
  find_action (actionId step) = Some action ->
  refused action cur img c ->
  step_body i step cur img w
  = (c, logged (executing_entry env i action step cur) w).
Proof.
  intros Hfind Href. unfold Automation.step_body. rewrite Hfind, bind_log.
  unfold bind at 1.
  destruct Href as [(Hv & Hs & ->)|(Hv & Hso & -> & ->)].
  - apply String.eqb_eq in Hv. rewrite Hv. unfold vision_step. by rewrite Hs.
  - apply String.eqb_neq in Hv, Hso. rewrite Hv, Hso. reflexivity.
Qed.

(** *** Counting log entries *)

Lemma count_entries_app p (l1 l2 : list DebugLogEntry) :
  count_entries p (l1 ++ l2) = count_entries p l1 + count_entries p l2.
Proof. induction l1 as [|e l1 IH]; simpl; [reflexivity|]. rewrite IH. lia. Qed.

Lemma count_service_entries p (mid : list DebugLogEntry) :
  (forall e, service_entry e = true -> p e = false) ->
  forallb service_entry mid = true -> count_entries p mid = 0.
Proof.
  intros Hp. induction mid as [|e mid IH]; simpl; [reflexivity|].
  intros [He Hmid]%andb_prop. rewrite (Hp e He), IH by done. reflexivity.
Qed.

Lemma service_entry_level p :
  (forall e, p e = true -> level e = INFO \/ level e = AUTOMATION_STEP) ->
  forall e, service_entry e = true -> p e = false.
Proof.
  intros Hp e He. destruct (p e) eqn:E; [|reflexivity].
  unfold service_entry in He. destruct (Hp e E) as [H|H]; rewrite H in He; done.
Qed.

Lemma level_eqb_eq a b : DebugLogLevel_eqb a b = true -> a = b.
Proof. destruct a, b; simpl; congruence. Qed.

Lemma executor_entry_level p l q :
  (forall e, p e = DebugLogLevel_eqb (level e) l && q e) ->
  l = INFO \/ l = AUTOMATION_STEP ->
  forall e, p e = true -> level e = INFO \/ level e = AUTOMATION_STEP.
Proof.
  intros Hp Hl e He. rewrite Hp in He. apply andb_prop in He as [He _].
  apply level_eqb_eq in He. by rewrite He.
Qed.

Lemma count_service_start mid :
  forallb service_entry mid = true -> count_entries is_step_start mid = 0.
Proof.
  apply count_service_entries, service_entry_level.
  apply (executor_entry_level _ INFO (fun e => String.prefix "Executing step " (message e)));
    auto.
Qed.

Lemma count_service_completion mid :
  forallb service_entry mid = true -> count_entries is_step_completion mid = 0.
Proof.
  apply count_service_entries, service_entry_level.
  apply (executor_entry_level _ INFO (fun e => String.prefix "Step " (message e)));
    auto.
Qed.

Lemma count_service_terminal mid :
  forallb service_entry mid = true -> count_entries is_terminal_success mid = 0.
Proof.
  apply count_service_entries, service_entry_level.
  apply (executor_entry_level _ INFO (fun e => String.prefix "Automation " (message e)));
    auto.
Qed.

Lemma count_service_automation_step mid :
  forallb service_entry mid = true ->
  count_entries is_automation_step_level mid = 0.
Proof.
  apply count_service_entries, service_entry_level.
  apply (executor_entry_level _ AUTOMATION_STEP (fun _ => true)); auto.
  intros e. unfold is_automation_step_level. by rewrite andb_true_r.
Qed.

Lemma prefix_append (p s : string) : String.prefix p (p +:+ s) = true.
Proof.
  induction p as [|a p IH]; simpl.
  - by destruct s.
  - destruct (ascii_dec a a); [apply IH | done].
Qed.

Lemma executing_entry_counts i action step cur :
  is_step_start (executing_entry env i action step cur) = true
  /\ is_step_completion (executing_entry env i action step cur) = false
  /\ is_terminal_success (executing_entry env i action step cur) = false
  /\ is_automation_step_level (executing_entry env i action step cur) = false.
Proof.
  repeat split; try reflexivity.
  unfold is_step_start, executing_entry. cbn [level message DebugLogLevel_eqb andb].
  apply prefix_append.
Qed.

Lemma completed_entry_counts i out :
  is_step_start (completed_entry env i out) = false
  /\ is_step_completion (completed_entry env i out) = true
  /\ is_terminal_success (completed_entry env i out) = false
  /\ is_automation_step_level (completed_entry env i out) = false.
Proof.
  repeat split; try reflexivity.
  unfold is_step_completion, completed_entry.
  cbn [level message DebugLogLevel_eqb andb].
  apply prefix_append.
Qed.

(** The log of one step that completes: one start entry, one completion
    entry, nothing at the level [AUTOMATION_STEP]. *)
Lemma step_log_counts i action step cur out mid :
  forallb service_entry mid = true ->
  let new := [executing_entry env i action step cur] ++ mid
             ++ [completed_entry env i out] in
  count_entries is_step_start new = 1
  /\ count_entries is_step_completion new = 1
  /\ count_entries is_terminal_success new = 0
  /\ count_entries is_automation_step_level new = 0.
Proof.
  intros Hmid new. subst new.
  rewrite !count_entries_app.
  rewrite (count_service_start mid), (count_service_completion mid),
    (count_service_terminal mid), (count_service_automation_step mid) by done.
  destruct (executing_entry_counts i action step cur) as (E1 & E2 & E3 & E4).
  destruct (completed_entry_counts i out) as (C1 & C2 & C3 & C4).
  cbn [count_entries]. rewrite E1, E2, E3, E4, C1, C2, C3, C4. repeat split.
Qed.

Lemma failed_step_log_counts i action step cur mid :
  forallb service_entry mid = true ->
  let new := [executing_entry env i action step cur] ++ mid in
  count_entries is_terminal_success new = 0
  /\ count_entries is_automation_step_level new = 0.
Proof.
  intros Hmid new. subst new.
  rewrite !count_entries_app.
  rewrite (count_service_terminal mid), (count_service_automation_step mid)
    by done.
  repeat split; reflexivity.
Qed.

(** *** The loop *)

Lemma loop_cons i step rest cur img (w : World) :
  loop i (step :: rest) cur img w
  = match step_body i step cur img w with
    | (Normal next, w1) => loop (S i) rest (fst next) (snd next) w1
    | (Throw e, w1) => (Throw e, w1)
    end.
Proof. reflexivity. Qed.

Lemma same_ui_refl (w : World) : same_ui w w.
Proof. by split. Qed.

Lemma same_ui_trans (w1 w2 w3 : World) :
  same_ui w1 w2 -> same_ui w2 w3 -> same_ui w1 w3.
Proof. intros [A B] [C D]. split; congruence. Qed.

(** What a run of the loop leaves behind: the service calls, threaded, and
    the log, with one start and one completion entry per step when all steps
    complete. *)
Lemma loop_spec steps : forall i cur img (w : World),
  exists c w' invs new,
    loop i steps cur img w = (c, w')
    /\ same_ui w w'
    /\ invocations w' = invocations w ++ invs
    /\ Threaded allAvailableActions cur steps invs
    /\ logs w' = logs w ++ new
    /\ count_entries is_terminal_success new = 0
    /\ count_entries is_automation_step_level new = 0
    /\ match c with
       | Normal st =>
           List.length invs = List.length steps
           /\ fst st = final_payload cur invs
           /\ count_entries is_step_start new = List.length steps
           /\ count_entries is_step_completion new = List.length steps
       | Throw e => List.length invs <= List.length steps
       end.
Proof.
  induction steps as [|step rest IH]; intros i cur img w.
  - exists (Normal (cur, img)), w, [], []. simpl. rewrite !app_nil_r.
    repeat split. constructor.
  - rewrite loop_cons.
    destruct (find_action (actionId step)) as [action|] eqn:Hfind.
    + destruct (step_body_found i step action cur img w Hfind)
        as (c1 & w1 & Hrun & Hui & Hcase).
      rewrite Hrun.
      destruct Hcase as [(Href & Hinv & Hlogs) | (oc & mid & Hinv & Hmid & Hc)].
      * assert (exists e, c1 = Throw e) as [e ->].
        { destruct Href as [(_ & _ & ->)|(_ & _ & _ & ->)]; eauto. }
        exists (Throw e), w1, [], [executing_entry env i action step cur].
        rewrite Hinv, Hlogs, app_nil_r.
        destruct (executing_entry_counts i action step cur) as (_ & _ & E3 & E4).
        cbn [count_entries]. rewrite E3, E4. simpl.
        repeat split; try apply Hui; try lia. constructor.
      * destruct c1 as [[out img']|e].
        -- destruct Hc as (t & Ht & Hout & Himg & Hlogs).
           destruct (IH (S i) out img' w1)
             as (c2 & w2 & invs & new & Hrun2 & Hui2 & Hinv2 & Hthr & Hlogs2
                 & Hts & Has & Hc2).
           destruct (step_log_counts i action step cur out mid Hmid)
             as (S1 & S2 & S3 & S4).
           exists c2, w2,
             ({| request := request_for action step cur; outcome := oc |} :: invs),
             (([executing_entry env i action step cur] ++ mid
               ++ [completed_entry env i out]) ++ new).
           cbn [fst snd]. split; [exact Hrun2|].
           split; [by eapply same_ui_trans|].
           split; [by rewrite Hinv2, Hinv, <- app_assoc|].
           split.
           { eapply Threaded_next; eauto. by rewrite <- Hout. }
           split; [by rewrite Hlogs2, Hlogs, <- !app_assoc|].
           rewrite !(count_entries_app _ (_ ++ _ ++ _) new).
           rewrite S1, S2, S3, S4, Hts, Has.
           split; [done|]. split; [done|].
           destruct c2 as [st|e2].
           ++ destruct Hc2 as (L & F & C1 & C2).
              simpl List.length. rewrite L, C1, C2. repeat split.
              rewrite F. simpl. by rewrite Ht, Hout.
           ++ simpl. lia.
        -- exists (Throw e), w1,
             [{| request := request_for action step cur; outcome := oc |}],
             ([executing_entry env i action step cur] ++ mid).
           destruct (failed_step_log_counts i action step cur mid Hmid)
             as (F1 & F2).
           split; [reflexivity|]. split; [done|]. split; [done|].
           split; [by eapply Threaded_last|].
           split; [done|]. split; [done|]. split; [done|].
           simpl. lia.
    + rewrite (step_body_unknown i step cur img w Hfind).
      exists (Throw (invalid_action_message step i)), w, [], [].
      rewrite !app_nil_r. simpl.
      repeat split; try lia. constructor.
Qed.

(** *** The whole run *)

Lemma runAutomation_with_key name steps input (w : World) :
  truthy (API_KEY env) = true ->
  runAutomation name steps input w
  = (Normal tt,
     concluded name (loop 0 steps input false (prepared name steps input w))).
Proof.
  intros Hkey. unfold Automation.runAutomation.
  unfold try_finally, try_catch, bind, setIsLoading, setError,
    setAutomationOutput, setIsApiKeyMissing, set_ui, log, onActionComplete,
    console_error, modify.
  rewrite Hkey. cbn [negb]. unfold concluded, prepared. cbn [ui logs remote
    console completed invocations automationOutput isLoading error
    isApiKeyMissing].
  destruct (Automation.loop _ _ _ _ _ _ _ _ _ _) as [[final|err] w2].
  - reflexivity.
  - unfold shown_error. destruct (includes err _); reflexivity.
Qed.

Lemma runAutomation_without_key name steps input (w : World) :
  truthy (API_KEY env) = false ->
  exists w',
    runAutomation name steps input w = (Normal tt, w')
    /\ invocations w' = invocations w
    /\ error (ui w') = Some apiKeyNotConfigured
    /\ logs w' = logs w ++ [starting_entry env name steps input;
                            api_key_missing_entry env].
Proof.
  intros Hkey. unfold Automation.runAutomation.
  unfold try_finally, try_catch, bind, setIsLoading, setError,
    setAutomationOutput, setIsApiKeyMissing, set_ui, log, modify.
  rewrite Hkey. simpl. eexists. split; [reflexivity|]. simpl.
  by rewrite <- app_assoc.
Qed.

Lemma loop_app pre : forall post i cur img (w : World),
  loop i (pre ++ post) cur img w
  = match loop i pre cur img w with
    | (Normal st, w1) => loop (i + List.length pre) post (fst st) (snd st) w1
    | (Throw e, w1) => (Throw e, w1)
    end.
Proof.
  induction pre as [|step pre IH]; intros post i cur img w.
  - simpl. by rewrite Nat.add_0_r.
  - rewrite <- app_comm_cons, !loop_cons.
    destruct (step_body i step cur img w) as [[next|e] w1]; [|reflexivity].
    rewrite IH. simpl List.length. by rewrite Nat.add_succ_r.
Qed.

(** A run in which the steps [pre] complete and the next step throws [e]:
    the loop ends there, whatever steps follow. *)
Lemma loop_fails_at pre step post input st e (w w1 w2 : World) :
  loop 0 pre input false w = (Normal st, w1) ->
  step_body (List.length pre) step (fst st) (snd st) w1 = (Throw e, w2) ->
  loop 0 (pre ++ step :: post) input false w = (Throw e, w2).
Proof.
  intros Hpre Hstep. rewrite loop_app, Hpre, loop_cons. simpl.
  by rewrite Hstep.
Qed.

(** The calls made while the steps [pre] complete and the next step
    throws: one per step of [pre], and at most one more. *)
Lemma calls_until_failure pre step input st e (w w1 w2 : World) :
  loop 0 pre input false w = (Normal st, w1) ->
  step_body (List.length pre) step (fst st) (snd st) w1 = (Throw e, w2) ->
  exists invs,
    invocations w2 = invocations w ++ invs
    /\ List.length pre <= List.length invs <= S (List.length pre).
Proof.
  intros Hpre Hstep.
  destruct (loop_spec pre 0 input false w)
    as (c & w' & invs & new & Hrun & _ & Hinv & _ & _ & _ & _ & Hc).
  rewrite Hpre in Hrun. injection Hrun as <- <-.
  destruct Hc as (Hlen & _).
  destruct (find_action (actionId step)) as [action|] eqn:Hfind.
  - destruct (step_body_found (List.length pre) step action (fst st) (snd st) w1 Hfind)
      as (c1 & w1' & Hrun1 & _ & Hcase).
    rewrite Hstep in Hrun1. injection Hrun1 as <- <-.
    destruct Hcase as [(_ & Hinv1 & _) | (oc & mid & Hinv1 & _)].
    + exists invs. rewrite Hinv1, Hinv. split; [done|lia].
    + exists (invs ++ [{| request := request_for action step (fst st);
                          outcome := oc |}]).
      rewrite Hinv1, Hinv, <- app_assoc. split; [done|].
      rewrite length_app. simpl. lia.
  - rewrite (step_body_unknown _ _ _ _ _ Hfind) in Hstep.
    injection Hstep as _ <-. exists invs. split; [done|lia].
Qed.

(** After a step that completes, the payload counts as an image exactly
    when the output of that step begins with the image marker. *)
Lemma step_body_kind i step cur img out img' (w w' : World) :
  step_body i step cur img w = (Normal (out, img'), w') ->
  img' = startsWith out "data:image/".
Proof.
  intros Hrun.
  destruct (find_action (actionId step)) as [action|] eqn:Hfind.
  - destruct (step_body_found i step action cur img w Hfind)
      as (c & w1 & Hrun1 & _ & Hcase).
    rewrite Hrun in Hrun1. injection Hrun1 as <- <-.
    destruct Hcase as [(Href & _) | (oc & mid & _ & _ & t & _ & _ & Himg & _)].
    + destruct Href as [(_ & _ & ?)|(_ & _ & _ & ?)]; discriminate.
    + exact Himg.
  - rewrite (step_body_unknown _ _ _ _ _ Hfind) in Hrun. discriminate.
Qed.

Lemma loop_kind steps : forall i cur img st (w w' : World),
  loop i steps cur img w = (Normal st, w') ->
  (steps = [] /\ st = (cur, img))
  \/ (steps <> [] /\ snd st = startsWith (fst st) "data:image/").
Proof.
  induction steps as [|step rest IH]; intros i cur img st w w' Hrun.
  - left. simpl in Hrun. unfold ret in Hrun. injection Hrun as <- _. done.
  - right. split; [done|]. rewrite loop_cons in Hrun.
    destruct (step_body i step cur img w) as [[[out img']|e] w1] eqn:Hstep;
      [|discriminate].
    apply step_body_kind in Hstep. simpl in Hrun.
    destruct (IH _ _ _ _ _ _ Hrun) as [(-> & ->)|(_ & H)]; [exact Hstep|exact H].
Qed.

(** *** Strings *)

Lemma append_empty (s : string) : s +:+ EmptyString = s.
Proof.
  induction s as [|a s IH]; [reflexivity|].
  change (String a (s +:+ EmptyString) = String a s). by rewrite IH.
Qed.

Lemma substring0_length s : forall n,
  String.length (substring0 n s) = Nat.min n (String.length s).
Proof.
  unfold substring0. induction s as [|a s IH]; intros [|n]; simpl; try reflexivity.
  by rewrite IH.
Qed.

Lemma substring0_prefix s : forall n, String.prefix (substring0 n s) s = true.
Proof.
  unfold substring0. induction s as [|a s IH]; intros [|n]; simpl; try reflexivity.
  destruct (ascii_dec a a); [apply IH|done].
Qed.

Lemma substring0_all s : forall n, String.length s <= n -> substring0 n s = s.
Proof.
  unfold substring0. induction s as [|a s IH]; intros [|n] H; simpl in *;
    try reflexivity; try lia.
  rewrite IH by lia. reflexivity.
Qed.

Lemma preview_long s :
  100 < String.length s ->
  preview s = substring0 100 s +:+ "..."
  /\ String.length (substring0 100 s) = 100
  /\ String.prefix (substring0 100 s) s = true.
Proof.
  intros H. unfold preview.
  destruct (Nat.ltb_spec 100 (String.length s)); [|lia].
  split; [reflexivity|]. split; [|apply substring0_prefix].
  rewrite substring0_length. lia.
Qed.

Lemma preview_short s : String.length s <= 100 -> preview s = s.
Proof.
  intros H. unfold preview.
  destruct (Nat.ltb_spec 100 (String.length s)); [lia|].
  cbv iota. by rewrite append_empty, substring0_all.
Qed.

Lemma trimStart_blank s : blank s = true -> trimStart s = EmptyString.
Proof.
  induction s as [|c s IH]; simpl; [reflexivity|].
  intros [Hc Hs]%andb_prop. rewrite Hc. by apply IH.
Qed.

Lemma trimStart_not_blank s : blank s = false -> blank (trimStart s) = false.
Proof.
  induction s as [|c s IH]; simpl; [done|].
  destruct (is_whitespace c) eqn:Hc; simpl; [exact IH|].
  intros _. by rewrite Hc.
Qed.

Lemma trimEnd_not_blank s : blank s = false -> truthy (trimEnd s) = true.
Proof.
  induction s as [|c s IH]; simpl; [done|].
  destruct (is_whitespace c) eqn:Hc; simpl.
  - intros Hs. specialize (IH Hs). by destruct (trimEnd s).
  - intros _. by destruct (trimEnd s).
Qed.

(** [!s.trim()] holds exactly for the blank strings. *)
Lemma trim_truthy s : truthy (trim s) = negb (blank s).
Proof.
  unfold trim. destruct (blank s) eqn:Hb; simpl.
  - by rewrite trimStart_blank.
  - by apply trimEnd_not_blank, trimStart_not_blank.
Qed.

Lemma starting_entry_counts name steps input :
  is_step_start (starting_entry env name steps input) = false
  /\ is_step_completion (starting_entry env name steps input) = false
  /\ is_terminal_success (starting_entry env name steps input) = false
  /\ is_automation_step_level (starting_entry env name steps input) = false.
Proof. repeat split; reflexivity. Qed.

Lemma finished_entry_counts name out :
  is_step_start (finished_entry env name out) = false
  /\ is_step_completion (finished_entry env name out) = false
  /\ is_terminal_success (finished_entry env name out) = true
  /\ is_automation_step_level (finished_entry env name out) = false.
Proof. repeat split; reflexivity. Qed.

(** *** The claims about the executor *)

(** C2, as amended. When the steps before step k complete and step k
    throws, the loop ends with that error whatever steps follow;
    [runAutomation] itself returns, the error is put on display and logged
    at level [ERROR]; the service is called once for each earlier step and at
    most once for step k, never for a later step.  The error names the step
    (by its number, counted from 1) when it is the error of an unknown action
    id. *)
Theorem fail_fast name pre step post input st e (w w1 w2 : World) :
  truthy (API_KEY env) = true ->
  loop 0 pre input false (prepared name (pre ++ step :: post) input w)
    = (Normal st, w1) ->
  step_body (List.length pre) step (fst st) (snd st) w1 = (Throw e, w2) ->
  let r := runAutomation name (pre ++ step :: post) input w in
  loop 0 (pre ++ step :: post) input false
       (prepared name (pre ++ step :: post) input w) = (Throw e, w2)
  /\ fst r = Normal tt
  /\ error (ui (snd r)) = Some (shown_error e)
  /\ last (logs (snd r)) = Some (failed_entry env name e)
  /\ invocations (snd r) = invocations w2
  /\ (exists invs,
        invocations w2 = invocations w ++ invs
        /\ List.length pre <= List.length invs <= S (List.length pre))
  /\ (find_action (actionId step) = None ->
      e = "Invalid action ID: " +:+ actionId step +:+ " at step "
          +:+ of_nat (List.length pre + 1)).
Proof.
  intros Hkey Hpre Hstep r. subst r.
  pose proof (loop_fails_at pre step post input st e _ _ _ Hpre Hstep) as Hloop.
  rewrite (runAutomation_with_key _ _ _ _ Hkey), Hloop.
  split; [reflexivity|]. split; [reflexivity|]. split; [reflexivity|].
  split; [apply last_snoc|]. split; [reflexivity|].
  split.
  - destruct (calls_until_failure pre step input st e _ _ _ Hpre Hstep)
      as (invs & Hinv & Hlen).
    exists invs. split; [exact Hinv | exact Hlen].
  - intros Hfind. rewrite (step_body_unknown _ _ _ _ _ Hfind) in Hstep.
    by injection Hstep as <- _.
Qed.

(** C3, as amended. In a run that succeeds, the executor logs one start
    entry and one completion entry per step, and one final entry, all at
    level [INFO]; no entry has level [AUTOMATION_STEP]. *)
Theorem step_logs_are_info name steps input (w : World) :
  let w' := snd (runAutomation name steps input w) in
  error (ui w') = None ->
  exists new,
    logs w' = logs w ++ new
    /\ count_entries is_step_start new = List.length steps
    /\ count_entries is_step_completion new = List.length steps
    /\ count_entries is_terminal_success new = 1
    /\ count_entries is_automation_step_level new = 0.
Proof.
  intros w' Hok. subst w'.
  destruct (truthy (API_KEY env)) eqn:Hkey.
  - rewrite (runAutomation_with_key _ _ _ _ Hkey) in *. cbn [snd] in *.
    destruct (loop_spec steps 0 input false (prepared name steps input w))
      as (c & w2 & invs & new & Hrun & Hui & _ & _ & Hlogs & Hts & Has & Hc).
    rewrite Hrun in *. destruct c as [st|e]; [|discriminate Hok].
    destruct Hc as (_ & _ & Hstart & Hdone).
    exists ([starting_entry env name steps input] ++ new
            ++ [finished_entry env name (fst st)]).
    split.
    { simpl. rewrite Hlogs. simpl. by rewrite <- !app_assoc. }
    rewrite !count_entries_app, Hstart, Hdone, Hts, Has.
    destruct (starting_entry_counts name steps input) as (S1 & S2 & S3 & S4).
    destruct (finished_entry_counts name (fst st)) as (F1 & F2 & F3 & F4).
    cbn [count_entries]. rewrite S1, S2, S3, S4, F1, F2, F3, F4.
    repeat split; lia.
  - destruct (runAutomation_without_key name steps input w Hkey)
      as (w' & Hrun & _ & Herr & _).
    rewrite Hrun in Hok. simpl in Hok. congruence.
Qed.

(** C4, as amended. The service calls of a run are threaded: the call of
    the first step is built from the initial input, the call of each later
    step from the text of the previous reply with the white space at its two
    ends removed; a plain text action sends that payload as its prompt,
    unchanged.  After a step, the payload counts as an image exactly when it
    begins with the image marker.  A run that succeeds has called the service
    once per step and shows the last payload. *)
Theorem payload_threading name steps input (w : World) :
  let w' := snd (runAutomation name steps input w) in
  (exists invs,
     invocations w' = invocations w ++ invs
     /\ Threaded allAvailableActions input steps invs
     /\ (error (ui w') = None ->
         List.length invs = List.length steps
         /\ automationOutput (ui w') = final_payload input invs))
  /\ (forall action step payload,
        id action <> "vision-integration" ->
        id action <> "social-commenter" ->
        request_for action step payload
        = TextRequest DEFAULT_AI_MODEL payload (description action))
  /\ (forall i step cur img out img' (w0 w1 : World),
        step_body i step cur img w0 = (Normal (out, img'), w1) ->
        img' = startsWith out "data:image/").
Proof.
  intros w'. subst w'. split; [|split].
  - destruct (truthy (API_KEY env)) eqn:Hkey.
    + rewrite (runAutomation_with_key _ _ _ _ Hkey). cbn [snd].
      destruct (loop_spec steps 0 input false (prepared name steps input w))
        as (c & w2 & invs & new & Hrun & Hui & Hinv & Hthr & _ & _ & _ & Hc).
      rewrite Hrun. exists invs. destruct c as [st|e]; simpl.
      * split; [exact Hinv|]. split; [exact Hthr|]. intros _.
        destruct Hc as (Hlen & Hfinal & _). by split.
      * split; [exact Hinv|]. split; [exact Hthr|]. discriminate.
    + destruct (runAutomation_without_key name steps input w Hkey)
        as (w' & Hrun & Hinv & Herr & _).
      rewrite Hrun. simpl. exists []. rewrite app_nil_r.
      split; [exact Hinv|]. split; [constructor|]. congruence.
  - intros action step payload Hv Hs. unfold request_for.
    apply String.eqb_neq in Hv, Hs. by rewrite Hv, Hs.
  - intros i step cur img out img' w0 w1. apply step_body_kind.
Qed.

(** C5. The completion entry of a step carries the preview of the output
    of the step: its first 100 characters followed by ["..."] when it has
    more than 100 characters, the output itself otherwise. *)
Theorem completion_preview i step cur img out img' (w w' : World) :
  step_body i step cur img w = (Normal (out, img'), w') ->
  (exists e,
     last (logs w') = Some e
     /\ is_step_completion e = true
     /\ details e = OutputDetails (preview out))
  /\ (100 < String.length out ->
      preview out = substring0 100 out +:+ "..."
      /\ String.length (substring0 100 out) = 100
      /\ String.prefix (substring0 100 out) out = true)
  /\ (String.length out <= 100 -> preview out = out).
Proof.
  intros Hrun. split; [|split; [apply preview_long | apply preview_short]].
  destruct (find_action (actionId step)) as [action|] eqn:Hfind.
  - destruct (step_body_found i step action cur img w Hfind)
      as (c & w1 & Hrun1 & _ & Hcase).
    rewrite Hrun in Hrun1. injection Hrun1 as <- <-.
    destruct Hcase as [(Href & _) | (oc & mid & _ & _ & t & _ & _ & _ & Hlogs)].
    + destruct Href as [(_ & _ & ?)|(_ & _ & _ & ?)]; discriminate.
    + exists (completed_entry env i out).
      rewrite Hlogs, !app_assoc, last_snoc.
      split; [reflexivity|]. split; [|reflexivity].
      apply completed_entry_counts.
  - rewrite (step_body_unknown _ _ _ _ _ Hfind) in Hrun. discriminate.
Qed.

(** C6, as amended. [handleRunAutomation] rejects nothing and has no
    kinds of error: with some steps and a blank input it puts the message
    "Please provide initial input for the automation." in the [error] state
    of the component, and with no steps and an input that is not blank the
    message "Please add at least one step to the automation."; in both
    cases it returns normally without running the automation: no service
    call, no log entry. *)
Theorem validation_before_run name steps input (w : World) :
  let r := handleRunAutomation name steps input w in
  (steps <> [] /\ blank input = true ->
   fst r = Normal tt
   /\ error (ui (snd r)) = Some "Please provide initial input for the automation."
   /\ invocations (snd r) = invocations w
   /\ logs (snd r) = logs w /\ remote (snd r) = remote w)
  /\ (steps = [] /\ blank input = false ->
      fst r = Normal tt
      /\ error (ui (snd r)) = Some "Please add at least one step to the automation."
      /\ invocations (snd r) = invocations w
      /\ logs (snd r) = logs w /\ remote (snd r) = remote w).
Proof.
  intros r. subst r. unfold Automation.handleRunAutomation. split.
  - intros [Hsteps Hblank]. destruct steps as [|s rest]; [done|].
    simpl Nat.eqb. cbv iota. rewrite trim_truthy, Hblank. simpl. done.
  - intros [-> _]. simpl. done.
Qed.

(** C7, as amended. When the first step names an action that the catalog
    does not have, the run fails before any service call; the error names
    the action id and the step by its number, 1. *)
Theorem unknown_first_action name step rest input (w : World) :
  truthy (API_KEY env) = true ->
  find_action (actionId step) = None ->
  let r := runAutomation name (step :: rest) input w in
  let err := "Invalid action ID: " +:+ actionId step +:+ " at step 1" in
  fst r = Normal tt
  /\ invocations (snd r) = invocations w
  /\ error (ui (snd r)) = Some (shown_error err)
  /\ last (logs (snd r)) = Some (failed_entry env name err).
Proof.
  intros Hkey Hfind r err. subst r err.
  rewrite (runAutomation_with_key _ _ _ _ Hkey), loop_cons.
  rewrite (step_body_unknown _ _ _ _ _ Hfind). simpl.
  repeat split. apply last_snoc.
Qed.

(** C8, as amended. When the steps before a step complete and the step
    is a plain text action while the payload counts as an image, or is the
    vision action while the payload does not begin with the image marker,
    the run fails at that step without calling the service; the error says
    which kind was expected and which was found (and, for a text action, the
    name of the action), and does not depend on the position of the step. *)
Theorem kind_mismatch_error name pre step post action input st c (w w1 : World) :
  truthy (API_KEY env) = true ->
  find_action (actionId step) = Some action ->
  loop 0 pre input false (prepared name (pre ++ step :: post) input w)
    = (Normal st, w1) ->
  refused action (fst st) (snd st) c ->
  let r := runAutomation name (pre ++ step :: post) input w in
  exists msg,
    (msg = vision_requires_image \/ msg = text_action_on_image action)
    /\ c = Throw msg
    /\ fst (step_body (List.length pre) step (fst st) (snd st) w1) = c
    /\ fst r = Normal tt
    /\ error (ui (snd r)) = Some (shown_error msg)
    /\ last (logs (snd r)) = Some (failed_entry env name msg)
    /\ invocations (snd r) = invocations w1.
Proof.
  intros Hkey Hfind Hpre Href r. subst r.
  pose proof (step_body_refused (List.length pre) step action (fst st) (snd st)
                c w1 Hfind Href) as Hrun.
  assert (exists msg, c = Throw msg
            /\ (msg = vision_requires_image \/ msg = text_action_on_image action))
    as (msg & -> & Hmsg).
  { destruct Href as [(_ & _ & ->)|(_ & _ & _ & ->)]; eauto. }
  exists msg. split; [exact Hmsg|]. split; [reflexivity|].
  rewrite Hrun. split; [reflexivity|].
  rewrite (runAutomation_with_key _ _ _ _ Hkey).
  rewrite (loop_fails_at pre step post input st msg _ _ _ Hpre Hrun).
  split; [reflexivity|]. split; [reflexivity|].
  split; [apply last_snoc | reflexivity].
Qed.


(** C10. The loop starts with the payload counted as text whatever the
    initial input is, so a first step that is not the vision action is not
    refused: its service call is made, built from the initial input, also
    when that input is an image data URL.  The payload counts as an image
    only at the exit of a loop that ran at least one step and whose last
    output begins with the image marker; after every step, it counts as an
    image exactly when the output of the step begins with the marker. *)
Theorem initial_kind_is_text name step rest action input (w : World) :
  truthy (API_KEY env) = true ->
  find_action (actionId step) = Some action ->
  id action <> "vision-integration" ->
  let w' := snd (runAutomation name (step :: rest) input w) in
  (exists inv invs,
     invocations w' = invocations w ++ inv :: invs
     /\ request inv = request_for action step input)
  /\ (forall pre st (w0 w1 : World),
        loop 0 pre input false w0 = (Normal st, w1) ->
        snd st = true ->
        pre <> [] /\ startsWith (fst st) "data:image/" = true)
  /\ (forall i s cur img out img' (w0 w1 : World),
        step_body i s cur img w0 = (Normal (out, img'), w1) ->
        img' = startsWith out "data:image/").
Proof.
  intros Hkey Hfind Hnv w'. subst w'. split; [|split].
  - rewrite (runAutomation_with_key _ _ _ _ Hkey), loop_cons.
    set (w0 := prepared name (step :: rest) input w).
    destruct (step_body_found 0 step action input false w0 Hfind)
      as (c & w1 & Hrun & _ & Hcase).
    rewrite Hrun.
    destruct Hcase as [(Href & _) | (oc & mid & Hinv & _)].
    { destruct Href as [(? & _)|(_ & _ & ? & _)]; done. }
    exists {| request := request_for action step input; outcome := oc |}.
    destruct c as [next|e].
    + destruct (loop_spec rest 1 (fst next) (snd next) w1)
        as (c2 & w2 & invs & new & Hrun2 & _ & Hinv2 & _).
      rewrite Hrun2. exists invs. split; [|reflexivity].
      destruct c2; simpl; by rewrite Hinv2, Hinv, <- app_assoc.
    + exists []. split; [|reflexivity]. simpl. by rewrite Hinv.
  - intros pre st w0 w1 Hrun Himg.
    destruct (loop_kind pre 0 input false st w0 w1 Hrun) as [(_ & ->)|(Hne & Hk)].
    + discriminate Himg.
    + split; [exact Hne|]. by rewrite <- Hk.
  - intros i s cur img out img' w0 w1. apply step_body_kind.
Qed.

End Run.
End AutomationProps.

(* ===================================================================== *)
(** ** The properties on concrete runs *)
(* ===================================================================== *)

Module Checks.

Import Str Automation Observe Scenario AutomationProps.

(** C2 fails as stated: the same pipeline run twice, the text service
    rejecting with the same reason once at step 1 and once at step 2.  The
    error put on display and the error entry logged are the same in both
    runs, so the error does not tell which step failed. *)
Lemma error_does_not_identify_step :
  let pipeline := [step "summarize"; step "translator"] in
  let first := snd (run pipeline "hello" [Rejected "timeout"]) in
  let second := snd (run pipeline "hello" [says "ok"; Rejected "timeout"]) in
  List.length (invocations first) = 1
  /\ List.length (invocations second) = 2
  /\ error (ui first)
     = Some "Failed to run automation: Failed to generate content: timeout"
  /\ error (ui second) = error (ui first)
  /\ last (logs second) = last (logs first).
Proof. vm_compute. repeat split. Qed.

(** [fail_fast] on a three-step pipeline whose second step names an unknown
    action: the third step is never reached. *)
Lemma fail_fast_witness :
  let pipeline := [step "summarize"; step "unknown-action"; step "translator"] in
  let r := run pipeline "hello" [says "ok"; says "never asked"] in
  fst r = Normal tt
  /\ error (ui (snd r))
     = Some "Failed to run automation: Invalid action ID: unknown-action at step 2"
  /\ List.length (invocations (snd r)) = 1.
Proof.
  pose (w := start [says "ok"; says "never asked"]).
  pose (w0 := prepared env0 "demo"
                ([step "summarize"] ++ step "unknown-action" :: [step "translator"])
                "hello" w).
  pose (w1 := snd (loop Script scripted no_images env0 catalog 0
                        [step "summarize"] "hello" false w0)).
  assert (Hpre : loop Script scripted no_images env0 catalog 0
                      [step "summarize"] "hello" false w0
                 = (Normal ("ok", false), w1))
    by (vm_compute; reflexivity).
  assert (Hstep : step_body Script scripted no_images env0 catalog 1
                    (step "unknown-action") "ok" false w1
                  = (Throw "Invalid action ID: unknown-action at step 2", w1))
    by (vm_compute; reflexivity).
  destruct (fail_fast scripted no_images env0 catalog "demo"
              [step "summarize"] (step "unknown-action") [step "translator"]
              "hello" ("ok", false) _ w w1 w1 eq_refl Hpre Hstep)
    as (_ & H1 & H2 & _ & H3 & _).
  split; [exact H1|]. split; [exact H2|].
  exact (f_equal (@List.length _) H3).
Defined.

(** C3 fails as stated: the successful two-step run of the specification
    logs its two start entries, its two completion entries and its final
    entry at level [INFO]; not one entry has level [AUTOMATION_STEP]. *)
Lemma step_logs_not_at_automation_step_level :
  let w := snd (run [step "summarize"; step "translator"]
                    "The quick brown fox jumps over the lazy dog."
                    [says "A fox jumps over a dog.";
                     says "Un renard sautant par-dessus un chien."]) in
  error (ui w) = None
  /\ count_entries is_automation_step_level (logs w) = 0
  /\ map (fun e => (level e, message e)) (logs w)
     = [(INFO, "Starting automation: demo");
        (INFO, "Executing step 1: Summariser");
        (API_CALL, "Calling generateContent for model: gemini-2.5-flash");
        (API_RESPONSE, "generateContent succeeded (latency: 1.00ms)");
        (INFO, "Step 1 completed.");
        (INFO, "Executing step 2: Translator");
        (API_CALL, "Calling generateContent for model: gemini-2.5-flash");
        (API_RESPONSE, "generateContent succeeded (latency: 1.00ms)");
        (INFO, "Step 2 completed.");
        (INFO, "Automation " +:+ dquote +:+ "demo" +:+ dquote
               +:+ " finished successfully.")].
Proof. vm_compute. repeat split. Qed.

(** [step_logs_are_info] on the two-step run above. *)
Lemma step_logs_are_info_witness :
  let w := snd (run [step "summarize"; step "translator"]
                    "The quick brown fox jumps over the lazy dog."
                    [says "A fox jumps over a dog.";
                     says "Un renard sautant par-dessus un chien."]) in
  exists new,
    logs w = [] ++ new
    /\ count_entries is_step_start new = 2
    /\ count_entries is_step_completion new = 2
    /\ count_entries is_terminal_success new = 1
    /\ count_entries is_automation_step_level new = 0.
Proof.
  apply (step_logs_are_info scripted no_images env0 catalog "demo"
           [step "summarize"; step "translator"]
           "The quick brown fox jumps over the lazy dog."
           (start [says "A fox jumps over a dog.";
                   says "Un renard sautant par-dessus un chien."])).
  vm_compute. reflexivity.
Defined.

(** C4 fails as stated: the first step's reply has a space at each end;
    the prompt sent for the second step is that reply without them. *)
Lemma payload_is_trimmed :
  let w := snd (run [step "summarize"; step "translator"]
                    "The quick brown fox" [says " A fox. "; says "Un renard."]) in
  map (fun inv => (request inv, reply_text (outcome inv))) (invocations w)
  = [(TextRequest "gemini-2.5-flash" "The quick brown fox"
                  "Summarise any text or webpage (3-5 key ideas).",
      Some " A fox. ");
     (TextRequest "gemini-2.5-flash" "A fox."
                  "Translate text between major languages (auto-detect input).",
      Some "Un renard.")]
  /\ String.eqb "A fox." " A fox. " = false.
Proof. vm_compute. repeat split. Qed.

(** [completion_preview] on a step whose output has 110 characters. *)
Lemma completion_preview_witness :
  let w := snd (step_body Script scripted no_images env0 catalog 0
                          (step "summarize") "x" false (start [says long_text])) in
  String.length long_text = 110
  /\ exists e,
       last (logs w) = Some e
       /\ is_step_completion e = true
       /\ details e = OutputDetails (substring0 100 long_text +:+ "...").
Proof.
  split; [reflexivity|].
  destruct (completion_preview scripted no_images env0 catalog 0
              (step "summarize") "x" false long_text false
              (start [says long_text])
              (snd (step_body Script scripted no_images env0 catalog 0
                              (step "summarize") "x" false (start [says long_text]))))
    as ((e & H1 & H2 & H3) & Hlong & _).
  { vm_compute. reflexivity. }
  exists e. split; [exact H1|]. split; [exact H2|].
  rewrite H3. destruct Hlong as (-> & _); [vm_compute; lia | reflexivity].
Defined.

(** [emit_throws_under_inherited_name]: ['toString'] published on an
    emitter with two listeners subscribed under ['debugLog']. *)
Lemma emit_throws_under_inherited_name_witness :
  let r :=
    {| EventEmitter.world :=
         {| EventEmitter.bus :=
              EventEmitter.after_calls
                [EventEmitter.Subscribe "debugLog" 1;
                 EventEmitter.Subscribe "debugLog" 2];
            EventEmitter.console := [];
            EventEmitter.heap := tt |};
       EventEmitter.invoked := [] |} in
  EventEmitter.emit string string unit throwing_body type_error_message
                    "toString" "entry" r
  = (Throw "this.listeners[eventName].forEach is not a function", r).
Proof.
  exact (EventEmitterProps.emit_throws_under_inherited_name
           throwing_body type_error_message
           [EventEmitter.Subscribe "debugLog" 1;
            EventEmitter.Subscribe "debugLog" 2]
           [] tt [] "toString" "entry" eq_refl).
Defined.

(** [unsubscribe_removes_listener_everywhere]: listener 7 subscribed a
    second time after the listeners 3, 7 and 5, and unsubscribed. *)
Lemma unsubscribe_removes_listener_everywhere_witness :
  let this := EventEmitter.bus (EventEmitter.world (bus_with [3; 7; 5])) in
  exists unsubscribe subscribed after,
    EventEmitter.on "debugLog" 7 this = (Normal unsubscribe, subscribed)
    /\ EventEmitter.listeners subscribed !! "debugLog" = Some [3; 7; 5; 7]
    /\ unsubscribe subscribed = (Normal tt, after)
    /\ EventEmitter.listeners after !! "debugLog" = Some [3; 5].
Proof.
  intros this.
  destruct (EventEmitterProps.unsubscribe_removes_listener_everywhere
              "debugLog" 7 this eq_refl)
    as (u & subscribed & H1 & H2 & _ & (after & H3 & H4 & _) & _).
  exists u, subscribed, after.
  assert (E : EventEmitter.listeners this !! "debugLog" = Some [3; 7; 5])
    by apply lookup_singleton_eq.
  rewrite E in H2, H4.
  split; [exact H1|]. split; [exact H2|]. split; [exact H3 | exact H4].
Defined.

(** C6 fails as stated: nothing is rejected.  With one step and a blank
    input, and with no step and an input, [handleRunAutomation] returns
    normally; what the user gets is not an error of a kind
    [MissingInputError] or [EmptyPipelineError] but a message in the
    [error] state of the component. *)
Lemma validation_rejects_nothing :
  fst (handle [step "summarize"] "  " []) = Normal tt
  /\ (forall e, fst (handle [step "summarize"] "  " []) <> Throw e)
  /\ error (ui (snd (handle [step "summarize"] "  " [])))
     = Some "Please provide initial input for the automation."
  /\ fst (handle [] "x" []) = Normal tt
  /\ (forall e, fst (handle [] "x" []) <> Throw e)
  /\ error (ui (snd (handle [] "x" [])))
     = Some "Please add at least one step to the automation.".
Proof.
  assert (H1 : fst (handle [step "summarize"] "  " []) = Normal tt)
    by (vm_compute; reflexivity).
  assert (H2 : fst (handle [] "x" []) = Normal tt)
    by (vm_compute; reflexivity).
  rewrite H1, H2.
  repeat split; try discriminate; vm_compute; reflexivity.
Qed.

(** [validation_before_run] on a blank input with one step, and on an
    input with no step. *)
Lemma validation_before_run_witness :
  error (ui (snd (handle [step "summarize"] "  " [])))
  = Some "Please provide initial input for the automation."
  /\ invocations (snd (handle [step "summarize"] "  " [])) = []
  /\ error (ui (snd (handle [] "x" [])))
     = Some "Please add at least one step to the automation."
  /\ invocations (snd (handle [] "x" [])) = [].
Proof.
  destruct (validation_before_run scripted no_images env0 catalog "demo"
              [step "summarize"] "  " (start [])) as [H1 _].
  destruct (validation_before_run scripted no_images env0 catalog "demo"
              [] "x" (start [])) as [_ H2].
  destruct H1 as (_ & E1 & I1 & _); [split; [discriminate | reflexivity]|].
  destruct H2 as (_ & E2 & I2 & _); [split; reflexivity|].
  repeat split; assumption.
Defined.

(** C7 fails as stated: the error of the pipeline ["unknown-action"] names
    the step by its number 1; the index 0 is nowhere in it. *)
Lemma unknown_action_error_names_step_1 :
  let w := snd (run [step "unknown-action"] "x" []) in
  error (ui w)
  = Some "Failed to run automation: Invalid action ID: unknown-action at step 1"
  /\ includes "Failed to run automation: Invalid action ID: unknown-action at step 1"
              "0" = false
  /\ invocations w = [].
Proof. vm_compute. repeat split. Qed.

(** [unknown_first_action] on a pipeline that starts with an unknown
    action. *)
Lemma unknown_first_action_witness :
  let r := run [step "unknown-action"; step "summarize"] "x" [says "unused"] in
  fst r = Normal tt
  /\ invocations (snd r) = []
  /\ error (ui (snd r))
     = Some "Failed to run automation: Invalid action ID: unknown-action at step 1".
Proof.
  destruct (unknown_first_action scripted no_images env0 catalog "demo"
              (step "unknown-action") [step "summarize"] "x"
              (start [says "unused"]) eq_refl eq_refl)
    as (H1 & H2 & H3 & _).
  repeat split; assumption.
Defined.

(** C8 fails as stated: the vision action refused at step 1 of one
    pipeline and at step 2 of another gives the same error, in which no step
    index occurs. *)
Lemma mismatch_error_has_no_step_index :
  let first := snd (run [step "vision-integration"] "hello" []) in
  let second := snd (run [step "summarize"; step "vision-integration"]
                         "hello" [says "plain text"]) in
  error (ui first)
  = Some "Failed to run automation: Vision Integration requires an image input (base64 data URL). Current input is not an image."
  /\ error (ui second) = error (ui first)
  /\ List.length (invocations first) = 0
  /\ List.length (invocations second) = 1
  /\ includes vision_requires_image "step" = false.
Proof. vm_compute. repeat split. Qed.

(** [kind_mismatch_error] on a text action that follows a step whose output
    is an image data URL. *)
Lemma kind_mismatch_error_witness :
  let r := run [step "summarize"; step "summarize"] "hello"
               [says "data:image/png;base64,AAAA"; says "unused"] in
  fst r = Normal tt
  /\ error (ui (snd r))
     = Some "Failed to run automation: Text-based action 'Summariser' cannot process image input from previous step."
  /\ List.length (invocations (snd r)) = 1.
Proof.
  pose (w := start [says "data:image/png;base64,AAAA"; says "unused"]).
  pose (w0 := prepared env0 "demo" ([step "summarize"] ++ step "summarize" :: [])
                       "hello" w).
  pose (w1 := snd (loop Script scripted no_images env0 catalog 0
                        [step "summarize"] "hello" false w0)).
  assert (Hpre : loop Script scripted no_images env0 catalog 0
                      [step "summarize"] "hello" false w0
                 = (Normal ("data:image/png;base64,AAAA", true), w1))
    by (vm_compute; reflexivity).
  destruct (kind_mismatch_error scripted no_images env0 catalog "demo"
              [step "summarize"] (step "summarize") []
              {| id := "summarize"; name := "Summariser";
                 description := "Summarise any text or webpage (3-5 key ideas)." |}
              "hello" ("data:image/png;base64,AAAA", true)
              (Throw (text_action_on_image
                        {| id := "summarize"; name := "Summariser";
                           description := "Summarise any text or webpage (3-5 key ideas)." |}))
              w w1 eq_refl eq_refl Hpre)
    as (msg & _ & Hmsg & _ & H1 & H2 & _ & H3).
  { right. repeat split; discriminate. }
  injection Hmsg as <-.
  split; [exact H1|]. split; [exact H2|].
  exact (f_equal (@List.length _) H3).
Defined.

(** [initial_kind_is_text] on an initial input that is an image data URL:
    the text action is called with it. *)
Lemma initial_kind_is_text_witness :
  let w := snd (run [step "summarize"] "data:image/png;base64,AAAA"
                    [says "a picture"]) in
  exists inv invs,
    invocations w = [] ++ inv :: invs
    /\ request inv
       = TextRequest "gemini-2.5-flash" "data:image/png;base64,AAAA"
                     "Summarise any text or webpage (3-5 key ideas).".
Proof.
  destruct (initial_kind_is_text scripted no_images env0 catalog "demo"
              (step "summarize") []
              {| id := "summarize"; name := "Summariser";
                 description := "Summarise any text or webpage (3-5 key ideas)." |}
              "data:image/png;base64,AAAA" (start [says "a picture"])
              eq_refl eq_refl)
    as ((inv & invs & H1 & H2) & _).
  { discriminate. }
  exists inv, invs. split; [exact H1 | exact H2].
Defined.

End Checks.

(* ===================================================================== *)
(** ** Further properties of the event bus and of the log buffer *)
(* ===================================================================== *)

Module BusProps.

Import EventEmitter AppLog.

Section Publish.

Context {Args Exn Heap : Type}.
Variable body :
  Listener -> Args -> World Exn Heap -> Completion Exn unit * World Exn Heap.
Variable type_error : TypeError -> Exn.

Local Abbreviation deliver := (deliver Args Exn Heap body).
Local Abbreviation emit := (emit Args Exn Heap body type_error).

(** X26. Under an event name that is not inherited from
    [Object.prototype], publishing never throws, whatever the listeners do:
    [emit] completes normally; it calls every listener registered for the
    event name when it starts, once for each registration, in registration
    order, with the published arguments; and the final state is the one
    reached by delivering to the listeners one after the other, where a
    listener that throws is caught and reported on the console
    ([deliver_throw_logged]) and the next one is still called. *)
Theorem emit_isolates_listeners (eventName : string) (args : Args)
        (r : Run Args Exn Heap) :
  inherited eventName = false ->
  let registered := default [] (listeners (bus (world r)) !! eventName) in
  exists r',
    emit eventName args r = (Normal tt, r')
    /\ invoked r' = invoked r ++ map (fun l => (l, args)) registered
    /\ r' = fold_left (deliver eventName args) registered r.
Proof.
  intros Hn registered. subst registered.
  destruct (listeners (bus (world r)) !! eventName) as [ls|] eqn:E; simpl.
  - exists (fold_left (deliver eventName args) ls r).
    split; [by apply EventEmitterProps.emit_own_list|].
    split; [apply EventEmitterProps.fold_deliver_invoked | reflexivity].
  - exists r. rewrite app_nil_r.
    split; [by apply EventEmitterProps.emit_unregistered | auto].
Qed.

(** X1. Under an event name that is not inherited, unsubscribing a
    listener returns normally, and a publication under that name afterwards
    returns normally and does not call it: the calls made are those of the
    other listeners of the name, in order. *)
Theorem emit_after_off name listener args (r : Run Args Exn Heap) :
  inherited name = false ->
  let remaining :=
    filter (fun l => l ≠ listener)
           (default [] (listeners (bus (world r)) !! name)) in
  exists b r',
    off name listener (bus (world r)) = (Normal tt, b)
    /\ emit name args (on_bus (fun _ => b) r) = (Normal tt, r')
    /\ invoked r' = invoked r ++ map (fun l => (l, args)) remaining
    /\ forall a, (listener, a) ∉ map (fun l => (l, args)) remaining.
Proof.
  intros Hn remaining. subst remaining.
  exists (snd (off name listener (bus (world r)))).
  assert (Hoff : off name listener (bus (world r))
                 = (Normal tt, snd (off name listener (bus (world r))))).
  { rewrite <- (EventEmitterProps.off_normal name listener (bus (world r)) Hn).
    by destruct (off name listener (bus (world r))). }
  destruct (listeners (bus (world r)) !! name) as [ls|] eqn:E.
  - eexists. split; [exact Hoff|]. split.
    + apply EventEmitterProps.emit_own_list. simpl.
      rewrite EventEmitterProps.off_lookup, E. reflexivity.
    + split.
      * by rewrite EventEmitterProps.fold_deliver_invoked.
      * intros a [l [Heq Hin]]%list_elem_of_fmap.
        apply list_elem_of_filter in Hin as [Hne _].
        injection Heq as -> _. done.
  - eexists. split; [exact Hoff|]. split.
    + apply EventEmitterProps.emit_unregistered; [exact Hn|]. simpl.
      by rewrite EventEmitterProps.off_lookup, E.
    + simpl. rewrite app_nil_r. split; [reflexivity|].
      intros a Hin. by apply elem_of_nil in Hin.
Qed.

(** X3. Under an event name that is not inherited, subscribing a listener
    returns normally, and the next publication under that name calls it
    after all the listeners that were there before it. *)
Theorem emit_after_on name listener args (r : Run Args Exn Heap) :
  inherited name = false ->
  let before := default [] (listeners (bus (world r)) !! name) in
  exists unsubscribe b r',
    on name listener (bus (world r)) = (Normal unsubscribe, b)
    /\ emit name args (on_bus (fun _ => b) r) = (Normal tt, r')
    /\ invoked r'
       = invoked r ++ map (fun l => (l, args)) before ++ [(listener, args)].
Proof.
  intros Hn before. subst before. eexists _, _, _.
  split; [by apply EventEmitterProps.on_normal|]. split.
  - apply EventEmitterProps.emit_own_list. simpl. apply lookup_insert_eq.
  - rewrite EventEmitterProps.fold_deliver_invoked. simpl.
    by rewrite map_app.
Qed.

End Publish.

Section Unsubscribe.

(** X2. Under an event name that is not inherited, unsubscribing a
    listener that is not registered under the name (or from a name that
    nobody subscribed to) returns normally and leaves the registry as it
    is. *)
Theorem off_not_registered name listener (this : t) :
  inherited name = false ->
  listener ∉ default [] (listeners this !! name) ->
  off name listener this = (Normal tt, this).
Proof.
  intros Hn Hnot. unfold off. rewrite EventEmitterProps.get_own by done.
  destruct (listeners this !! name) as [ls|] eqn:E; [|reflexivity].
  simpl in Hnot. rewrite EventEmitterProps.filter_ne_absent by done.
  destruct this as [m]. simpl in *. do 2 f_equal. by apply insert_id.
Qed.

End Unsubscribe.

End BusProps.

Module AppLogProps.

Import EventEmitter AppLog.

Lemma slice_last_length {A} n (l : list A) :
  List.length (slice_last n l) = Nat.min n (List.length l).
Proof. unfold slice_last. rewrite length_drop. lia. Qed.

Lemma slice_last_short {A} n (l : list A) :
  List.length l <= n -> slice_last n l = l.
Proof.
  intros H. unfold slice_last.
  replace (List.length l - n) with 0 by lia. reflexivity.
Qed.

Lemma slice_last_app {A} n (x y : list A) :
  slice_last n (slice_last n x ++ y) = slice_last n (x ++ y).
Proof.
  unfold slice_last.
  rewrite <- (drop_app_le x y (List.length x - n)) by lia.
  rewrite drop_drop, length_drop, !length_app. f_equal. lia.
Qed.

Lemma handleLogDebug_bounded_length entry (prevLogs : list DebugLogEntry) :
  List.length (handleLogDebug entry prevLogs) <= 50.
Proof. unfold handleLogDebug. rewrite slice_last_length. lia. Qed.

Lemma handleLogDebug_snoc entry (prevLogs : list DebugLogEntry) :
  handleLogDebug entry prevLogs = slice_last 49 prevLogs ++ [entry].
Proof.
  unfold handleLogDebug, slice_last. rewrite length_app.
  change (List.length [entry]) with 1.
  rewrite drop_app_le by lia. f_equal. f_equal. lia.
Qed.

(** X4. The log buffer never holds more than 50 entries, whatever it held
    before: after an entry is handled the buffer has [min 50 (n + 1)]
    entries, the new entry is the last of them, and the entries before it are
    the last ones of the previous buffer, in order. *)
Theorem handleLogDebug_bounded entry (prevLogs : list DebugLogEntry) :
  List.length (handleLogDebug entry prevLogs)
  = Nat.min 50 (S (List.length prevLogs))
  /\ List.length (handleLogDebug entry prevLogs) <= 50
  /\ handleLogDebug entry prevLogs = slice_last 49 prevLogs ++ [entry].
Proof.
  split; [|split].
  - unfold handleLogDebug. rewrite slice_last_length, length_app.
    change (List.length [entry]) with 1. lia.
  - apply handleLogDebug_bounded_length.
  - apply handleLogDebug_snoc.
Qed.

(** X5. Handling a sequence of entries one after the other leaves the
    last 50 entries of the previous buffer followed by the sequence. *)
Theorem handleLogDebug_sequence (entries : list DebugLogEntry) :
  forall prevLogs,
    List.length prevLogs <= 50 ->
    fold_left (fun logs entry => handleLogDebug entry logs) entries prevLogs
    = slice_last 50 (prevLogs ++ entries).
Proof.
  induction entries as [|e es IH]; intros prev Hlen; simpl.
  - rewrite app_nil_r. by rewrite slice_last_short.
  - rewrite IH.
    + unfold handleLogDebug. rewrite slice_last_app, <- app_assoc. reflexivity.
    + apply handleLogDebug_bounded_length.
Qed.

Section Subscribed.

Context {Exn : Type}.
Variable app : Listener.
Variable others :
  Listener -> DebugLogEntry -> World Exn (list DebugLogEntry) ->
  Completion Exn unit * World Exn (list DebugLogEntry).
Variable type_error : TypeError -> Exn.

(** The other listeners may throw, write to the console and change the
    registry, but they leave the logs of the application alone. *)
Hypothesis others_keep_logs :
  forall l entry w, heap (snd (others l entry w)) = heap w.

Local Abbreviation deliver :=
  (deliver DebugLogEntry Exn (list DebugLogEntry) (bodies Exn app others)).

Lemma deliver_logs name entry r l :
  heap (world (deliver name entry r l))
  = if Nat.eqb l app then handleLogDebug entry (heap (world r))
    else heap (world r).
Proof.
  unfold EventEmitter.deliver, bodies.
  destruct (Nat.eqb l app); [reflexivity|].
  pose proof (others_keep_logs l entry (world r)) as H.
  destruct (others l entry (world r)) as [[[]|e] w]; exact H.
Qed.

Lemma fold_deliver_logs_absent name entry ls : forall r,
  app ∉ ls ->
  heap (world (fold_left (deliver name entry) ls r)) = heap (world r).
Proof.
  induction ls as [|l ls IH]; intros r Hnot; [reflexivity|].
  apply not_elem_of_cons in Hnot as [Hne Hnot].
  simpl. rewrite IH by done. rewrite deliver_logs.
  destruct (Nat.eqb_spec l app); [congruence|reflexivity].
Qed.

(** X6. With the listener of the application registered once under an
    event name, among any other listeners, a publication under that name
    returns normally and appends the entry to the logs of the application
    (keeping the last 50), also when other listeners throw. *)
Theorem emit_reaches_app_logs name entry before after
        (r : Run DebugLogEntry Exn (list DebugLogEntry)) :
  listeners (bus (world r)) !! name = Some (before ++ app :: after) ->
  app ∉ before ->
  app ∉ after ->
  exists r',
    emit DebugLogEntry Exn (list DebugLogEntry) (bodies Exn app others)
         type_error name entry r = (Normal tt, r')
    /\ heap (world r') = handleLogDebug entry (heap (world r))
    /\ last (heap (world r')) = Some entry
    /\ List.length (heap (world r')) <= 50.
Proof.
  intros Hreg Hb Ha. eexists. split.
  - apply EventEmitterProps.emit_own_list. exact Hreg.
  - assert (Hheap :
      heap (world (fold_left (deliver name entry) (before ++ app :: after) r))
      = handleLogDebug entry (heap (world r))).
    { rewrite fold_left_app. simpl.
      rewrite fold_deliver_logs_absent by done.
      rewrite deliver_logs, Nat.eqb_refl.
      by rewrite fold_deliver_logs_absent. }
    rewrite Hheap. split; [reflexivity|]. split.
    + rewrite handleLogDebug_snoc. apply last_snoc.
    + apply handleLogDebug_bounded_length.
Qed.

End Subscribed.

End AppLogProps.

(* ===================================================================== *)
(** ** Properties of the string operations *)
(* ===================================================================== *)

Module StrProps.

Import Str Shape Automation Observe.

Lemma append_assoc (a b c : string) : (a +:+ b) +:+ c = a +:+ (b +:+ c).
Proof.
  induction a as [|x a IH]; [reflexivity|].
  change (String x ((a +:+ b) +:+ c) = String x (a +:+ (b +:+ c))).
  by rewrite IH.
Qed.

Lemma length_append (a b : string) :
  String.length (a +:+ b) = String.length a + String.length b.
Proof.
  induction a as [|x a IH]; [reflexivity|].
  change (S (String.length (a +:+ b)) = S (String.length a + String.length b)).
  by rewrite IH.
Qed.

Lemma blank_cons c s : blank (String c s) = is_whitespace c && blank s.
Proof. reflexivity. Qed.

Lemma trimStart_split s :
  exists pre, s = pre +:+ trimStart s /\ blank pre = true.
Proof.
  induction s as [|c s (pre & Hs & Hpre)].
  - by exists EmptyString.
  - cbn [trimStart]. destruct (is_whitespace c) eqn:Hc.
    + exists (String c pre). split.
      * change (String c s = String c (pre +:+ trimStart s)). by rewrite <- Hs.
      * by rewrite blank_cons, Hc, Hpre.
    + by exists EmptyString.
Qed.

Lemma trimEnd_cons c s :
  trimEnd (String c s)
  = match trimEnd s with
    | EmptyString => if is_whitespace c then EmptyString else String c EmptyString
    | kept => String c kept
    end.
Proof. reflexivity. Qed.

Lemma trimEnd_split s :
  exists post, s = trimEnd s +:+ post /\ blank post = true.
Proof.
  induction s as [|c s (post & Hs & Hpost)].
  - by exists EmptyString.
  - rewrite trimEnd_cons. destruct (trimEnd s) as [|k ks] eqn:Hk.
    + change (s = post) in Hs. subst post. destruct (is_whitespace c) eqn:Hc.
      * exists (String c s). split; [reflexivity|].
        by rewrite blank_cons, Hc, Hpost.
      * exists s. by split.
    + exists post. split; [|exact Hpost].
      change (String c s = String c (String k ks +:+ post)). by rewrite <- Hs.
Qed.

Lemma trimStart_first s c :
  first_char (trimStart s) = Some c -> is_whitespace c = false.
Proof.
  induction s as [|a s IH]; [discriminate|].
  cbn [trimStart]. destruct (is_whitespace a) eqn:Ha; [exact IH|].
  simpl. intros [= <-]. exact Ha.
Qed.

Lemma trimEnd_last s c :
  last_char (trimEnd s) = Some c -> is_whitespace c = false.
Proof.
  induction s as [|a s IH]; [discriminate|].
  rewrite trimEnd_cons. destruct (trimEnd s) as [|k ks] eqn:Hk.
  - destruct (is_whitespace a) eqn:Ha; [discriminate|].
    simpl. intros [= <-]. exact Ha.
  - exact IH.
Qed.

Lemma trimEnd_first s c :
  first_char s = Some c -> is_whitespace c = false ->
  first_char (trimEnd s) = Some c.
Proof.
  destruct s as [|a s]; [discriminate|]. simpl first_char at 1.
  intros [= ->] Hc. rewrite trimEnd_cons.
  destruct (trimEnd s); [by rewrite Hc|reflexivity].
Qed.

Lemma trimStart_id s :
  (forall c, first_char s = Some c -> is_whitespace c = false) ->
  trimStart s = s.
Proof.
  destruct s as [|a s]; [reflexivity|]. intros H.
  cbn [trimStart]. by rewrite (H a eq_refl).
Qed.

Lemma trimEnd_idem s : trimEnd (trimEnd s) = trimEnd s.
Proof.
  induction s as [|c s IH]; [reflexivity|].
  rewrite trimEnd_cons. destruct (trimEnd s) as [|k ks] eqn:Hk.
  - destruct (is_whitespace c) eqn:Hc; [reflexivity|].
    rewrite trimEnd_cons. simpl. by rewrite Hc.
  - rewrite trimEnd_cons, IH. reflexivity.
Qed.

Lemma trim_first s c :
  first_char (trim s) = Some c -> is_whitespace c = false.
Proof.
  unfold trim. destruct (trimStart s) as [|a u] eqn:Hu; [discriminate|].
  assert (Ha : is_whitespace a = false).
  { apply (trimStart_first s). by rewrite Hu. }
  rewrite (trimEnd_first (String a u) a eq_refl Ha). by intros [= <-].
Qed.

Lemma trim_is_trimmed s : trimmed (trim s) = true.
Proof.
  unfold trimmed.
  destruct (first_char (trim s)) as [a|] eqn:Ha; [|reflexivity].
  destruct (last_char (trim s)) as [b|] eqn:Hb; [|reflexivity].
  rewrite (trim_first s a Ha), (trimEnd_last (trimStart s) b Hb). reflexivity.
Qed.

Lemma trim_idem s : trim (trim s) = trim s.
Proof.
  unfold trim at 1. rewrite (trimStart_id (trim s)).
  - unfold trim. apply trimEnd_idem.
  - apply trim_first.
Qed.

(** [trim] removes white space at the two ends and nothing else: the
    string is a run of white space, the trimmed string, and a run of white
    space; the trimmed string neither starts nor ends with a white space
    character, and trimming it again changes nothing. *)
Lemma trim_decomposition (s : string) :
  (exists pre post,
     s = pre +:+ trim s +:+ post
     /\ blank pre = true
     /\ blank post = true
     /\ trimmed (trim s) = true)
  /\ trim (trim s) = trim s.
Proof.
  split; [|apply trim_idem].
  destruct (trimStart_split s) as (pre & Hs & Hpre).
  destruct (trimEnd_split (trimStart s)) as (post & Hu & Hpost).
  exists pre, post. split; [|split; [exact Hpre|split; [exact Hpost|]]].
  - unfold trim. by rewrite <- Hu.
  - apply trim_is_trimmed.
Qed.

(** X7. The preview of a step output has at most 103 characters. *)
Theorem preview_length_bound (stepOutput : string) :
  String.length (preview stepOutput) <= 103.
Proof.
  unfold preview. rewrite length_append, AutomationProps.substring0_length.
  destruct (100 <? String.length stepOutput);
    [change (String.length "...") with 3
    |change (String.length EmptyString) with 0]; lia.
Qed.

Lemma has_char_append c a b :
  has_char c (a +:+ b) = has_char c a || has_char c b.
Proof.
  induction a as [|x a IH]; [reflexivity|].
  change (Ascii.eqb x c || has_char c (a +:+ b)
          = Ascii.eqb x c || has_char c a || has_char c b).
  by rewrite IH, orb_assoc.
Qed.

Lemma split_without sep s : has_char sep s = false -> split sep s = [s].
Proof.
  induction s as [|a s IH]; [reflexivity|].
  simpl. intros [Ha Hs]%orb_false_elim. rewrite Ha, IH by done. reflexivity.
Qed.

Lemma split_at sep a b :
  has_char sep a = false ->
  split sep (a +:+ String sep b) = a :: split sep b.
Proof.
  induction a as [|x a IH]; intros H.
  - simpl. by rewrite Ascii.eqb_refl.
  - simpl in H. apply orb_false_elim in H as [Hx Ha].
    change (split sep (String x (a +:+ String sep b))
            = String x a :: split sep b).
    simpl. by rewrite Hx, IH.
Qed.

(** X8. The vision step recovers the two parts of a data URL: for a mime
    type without [;], [:] and [,] and data without [,] (as base64 data is),
    the image part built from [data:<mime>;base64,<data>] has that mime type
    and that data, and a URL of an image mime type passes the image check of
    the step. *)
Theorem image_part_of_data_url (mime data : string) :
  has_char ";" mime = false ->
  has_char ":" mime = false ->
  has_char "," mime = false ->
  has_char "," data = false ->
  image_part (data_url mime data)
  = {| mimeType := Some mime; Automation.data := Some data |}
  /\ startsWith (data_url ("image/" +:+ mime) data) "data:image/" = true.
Proof.
  intros Hsemi Hcolon Hcomma Hdata. split.
  2: { unfold startsWith, data_url.
       change (String.prefix "data:image/"
                 ("data:image/" +:+ (mime +:+ ";base64," +:+ data)) = true).
       apply AutomationProps.prefix_append. }
  unfold image_part, data_url. f_equal.
  - replace ("data:" +:+ mime +:+ ";base64," +:+ data)
      with (("data:" +:+ mime) +:+ String ";" ("base64," +:+ data))
      by (by rewrite append_assoc).
    rewrite split_at by (by rewrite has_char_append, Hsemi).
    cbn [hd].
    change ("data:" +:+ mime) with ("data" +:+ String ":" mime).
    rewrite split_at by reflexivity.
    by rewrite split_without.
  - replace ("data:" +:+ mime +:+ ";base64," +:+ data)
      with (("data:" +:+ mime +:+ ";base64") +:+ String "," data).
    + rewrite split_at.
      * by rewrite split_without.
      * by rewrite !has_char_append, Hcomma.
    + rewrite !append_assoc. reflexivity.
Qed.

End StrProps.

(* ===================================================================== *)
(** ** Properties of the step builder *)
(* ===================================================================== *)

Module BuilderProps.

Import Builder.

Lemma filter_index_before {A} index (l : list A) : forall i,
  index < i ->
  filter_index (fun k => negb (Nat.eqb k index)) i l = l.
Proof.
  induction l as [|x l IH]; intros i Hi; [reflexivity|].
  simpl. destruct (Nat.eqb_spec i index); [lia|]. simpl.
  by rewrite IH by lia.
Qed.

Lemma filter_index_at {A} (l : list A) : forall i j index,
  index = i + j ->
  filter_index (fun k => negb (Nat.eqb k index)) i l
  = take j l ++ drop (S j) l.
Proof.
  induction l as [|x l IH]; intros i j index Hindex.
  - by destruct j.
  - simpl. destruct j as [|j].
    + destruct (Nat.eqb_spec i index); [|lia]. simpl.
      rewrite filter_index_before by lia. by rewrite drop_0.
    + destruct (Nat.eqb_spec i index); [lia|]. simpl.
      by rewrite (IH (S i) j index) by lia.
Qed.

Lemma removeStep_take_drop index (steps : list AutomationStep) :
  removeStep index steps = take index steps ++ drop (S index) steps.
Proof. unfold removeStep. by apply filter_index_at. Qed.

Lemma removeStep_length index (steps : list AutomationStep) :
  List.length (removeStep index steps) <= List.length steps.
Proof.
  rewrite removeStep_take_drop, length_app, length_take, length_drop. lia.
Qed.

Lemma addStep_length (steps : list AutomationStep) :
  List.length steps <= 3 -> List.length (addStep steps) <= 3.
Proof.
  intros H. unfold addStep.
  destruct (Nat.ltb_spec (List.length steps) 3); [|lia].
  rewrite length_app. simpl. lia.
Qed.

(** X9. [removeStep] removes the step at the given index and keeps the
    others in order; an index past the end removes nothing. *)
Theorem removeStep_removes_one index (steps : list AutomationStep) :
  removeStep index steps = take index steps ++ drop (S index) steps
  /\ (index < List.length steps ->
      List.length (removeStep index steps) = List.length steps - 1)
  /\ (List.length steps <= index -> removeStep index steps = steps).
Proof.
  split; [apply removeStep_take_drop|]. rewrite removeStep_take_drop. split.
  - intros H. rewrite length_app, length_take, length_drop. lia.
  - intros H. rewrite take_ge, drop_ge by lia. by rewrite app_nil_r.
Qed.

(** X10. Whatever steps are added and removed, starting from the empty
    list of a new component, the builder never holds more than 3 steps. *)
Theorem builder_holds_at_most_3 (edits : list Edit) :
  List.length (fold_left edit edits []) <= 3.
Proof.
  assert (H : forall steps, List.length steps <= 3 ->
                            List.length (fold_left edit edits steps) <= 3).
  { induction edits as [|e edits IH]; intros steps Hlen; [exact Hlen|].
    simpl. apply IH. destruct e as [|index]; simpl.
    - by apply addStep_length.
    - pose proof (removeStep_length index steps). lia. }
  apply H. simpl. lia.
Qed.

(** X11. Below the cap, [addStep] appends one blank step, and removing
    the step at the last index afterwards gives the steps back; at the cap,
    [addStep] changes nothing. *)
Theorem addStep_then_removeStep (steps : list AutomationStep) :
  (List.length steps < 3 ->
   addStep steps = steps ++ [newStep]
   /\ removeStep (List.length steps) (addStep steps) = steps)
  /\ (3 <= List.length steps -> addStep steps = steps).
Proof.
  unfold addStep. split; intros H.
  - destruct (Nat.ltb_spec (List.length steps) 3); [|lia].
    split; [reflexivity|].
    rewrite removeStep_take_drop, take_app_length.
    rewrite drop_ge by (rewrite length_app; simpl; lia).
    by rewrite app_nil_r.
  - destruct (Nat.ltb_spec (List.length steps) 3); [lia|reflexivity].
Qed.

End BuilderProps.

(* ===================================================================== *)
(** ** Further properties of the services and of the executor *)
(* ===================================================================== *)

Module RunProps.

Import Str Shape Automation Observe Service Builder.

Section Run.

Context {Remote : Type}.
Variable models_generateContent :
  GenerateContentParameters -> Remote -> Settled GenerateContentResponse * Remote.
Variable models_generateImages :
  string -> string -> Remote -> Settled (list string) * Remote.
Variable env : Env.
Variable allAvailableActions : list AIAction.

Local Abbreviation World := (World Remote).
Local Abbreviation getGeminiClient := (getGeminiClient Remote env).
Local Abbreviation generateTextContent :=
  (generateTextContent Remote models_generateContent env).
Local Abbreviation generateImages :=
  (generateImages Remote models_generateContent models_generateImages env).
Local Abbreviation vision_step :=
  (vision_step Remote models_generateContent models_generateImages env).
Local Abbreviation step_body :=
  (step_body Remote models_generateContent models_generateImages env
             allAvailableActions).
Local Abbreviation loop :=
  (loop Remote models_generateContent models_generateImages env
        allAvailableActions).
Local Abbreviation find_action := (find_action allAvailableActions).
Local Abbreviation prepared := (prepared env).
Local Abbreviation concluded := (concluded env).
Local Abbreviation runAutomation :=
  (runAutomation Remote models_generateContent models_generateImages env
                 allAvailableActions).
Local Abbreviation handleRunAutomation :=
  (handleRunAutomation Remote models_generateContent models_generateImages env
                       allAvailableActions).
Local Abbreviation loop_spec :=
  (AutomationProps.loop_spec models_generateContent models_generateImages env
                             allAvailableActions).
Local Abbreviation loop_cons :=
  (AutomationProps.loop_cons models_generateContent models_generateImages env
                             allAvailableActions).
Local Abbreviation step_body_found :=
  (AutomationProps.step_body_found models_generateContent models_generateImages
                                   env allAvailableActions).
Local Abbreviation step_body_unknown :=
  (AutomationProps.step_body_unknown models_generateContent models_generateImages
                                     env allAvailableActions).
Local Abbreviation runAutomation_with_key :=
  (AutomationProps.runAutomation_with_key models_generateContent
     models_generateImages env allAvailableActions).

(** *** The services *)

Lemma getGeminiClient_configured (w : World) :
  truthy (configured_key env) = true ->
  getGeminiClient w = (Normal (configured_key env), w).
Proof.
  intros H. unfold Automation.getGeminiClient. fold (configured_key env).
  by rewrite H.
Qed.

Lemma getGeminiClient_not_configured (w : World) :
  truthy (configured_key env) = false ->
  getGeminiClient w = (Throw not_configured, w).
Proof.
  intros H. unfold Automation.getGeminiClient. fold (configured_key env).
  by rewrite H.
Qed.

Lemma env_key_configured :
  truthy (API_KEY env) = true -> truthy (configured_key env) = true.
Proof.
  intros H. unfold configured_key, or_else.
  destruct (truthy (default EmptyString (apiKey_gemini env))) eqn:E; done.
Qed.

(** X12. Without a key in local storage and in the environment, the text
    service and the image service throw the not-configured error at once:
    the hosted model is not called, nothing is logged and nothing is written
    to the console. *)
Theorem services_without_key model prompt sys part (w : World) :
  truthy (default EmptyString (apiKey_gemini env)) = false ->
  truthy (API_KEY env) = false ->
  (exists w',
     generateTextContent model prompt sys w = (Throw not_configured, w')
     /\ remote w' = remote w /\ logs w' = logs w /\ console w' = console w)
  /\ (exists w',
        generateImages model prompt part w = (Throw not_configured, w')
        /\ remote w' = remote w /\ logs w' = logs w /\ console w' = console w).
Proof.
  intros Hls Henv.
  assert (Hkey : truthy (configured_key env) = false).
  { unfold configured_key, or_else. by rewrite Hls. }
  split.
  - unfold Automation.generateTextContent, observed, bind.
    rewrite (getGeminiClient_not_configured _ Hkey).
    eexists. split; [reflexivity|]. done.
  - unfold Automation.generateImages, observed, bind.
    rewrite (getGeminiClient_not_configured _ Hkey).
    eexists. split; [reflexivity|]. done.
Qed.

(** The text service with a key: one call of the hosted model, and the
    world that results. *)
Lemma text_call model prompt sys (w : World) :
  truthy (configured_key env) = true ->
  exists w' e1 e2,
    generateTextContent model prompt sys w
    = (match fst (models_generateContent (text_parameters model prompt sys)
                                         (remote w)) with
       | Fulfilled response => Normal (text response)
       | Rejected reason => Throw ("Failed to generate content: " +:+ reason)
       end, w')
    /\ remote w'
       = snd (models_generateContent (text_parameters model prompt sys) (remote w))
    /\ logs w' = logs w ++ [e1; e2]
    /\ level e1 = API_CALL
    /\ match fst (models_generateContent (text_parameters model prompt sys)
                                         (remote w)) with
       | Fulfilled response =>
           level e2 = API_RESPONSE
           /\ details e2 = ApiResponseDetails (text response)
           /\ console w' = console w
       | Rejected reason =>
           level e2 = ERROR
           /\ details e2 = ErrorDetails (message_or_string reason)
           /\ console w' = console w ++ [("Error generating text content:", reason)]
       end
    /\ ui w' = ui w.
Proof.
  intros Hkey.
  unfold Automation.generateTextContent, observed, bind.
  rewrite (getGeminiClient_configured _ Hkey).
  unfold try_catch, bind, log, modify, await, console_error, throw, ret.
  fold (text_parameters model prompt sys). simpl.
  destruct (models_generateContent _ _) as [[resp|reason] r']; simpl.
  - eexists _, _, _. split; [reflexivity|]. simpl.
    split; [reflexivity|]. split; [by rewrite <- app_assoc|]. done.
  - eexists _, _, _. split; [reflexivity|]. simpl.
    split; [reflexivity|]. split; [by rewrite <- app_assoc|]. done.
Qed.

(** X13. With a key, the text service calls the hosted model once with the
    prompt as contents.  When the call is fulfilled it returns the text of
    the response and logs an [API_CALL] and an [API_RESPONSE] entry; when the
    call is rejected it logs an [API_CALL] and an [ERROR] entry, writes the
    reason to the console and throws the reason behind
    ["Failed to generate content: "]. *)
Theorem generateTextContent_settles model prompt sys (w : World) :
  truthy (configured_key env) = true ->
  exists w' e1 e2,
    generateTextContent model prompt sys w
    = (match fst (models_generateContent (text_parameters model prompt sys)
                                         (remote w)) with
       | Fulfilled response => Normal (text response)
       | Rejected reason => Throw ("Failed to generate content: " +:+ reason)
       end, w')
    /\ remote w'
       = snd (models_generateContent (text_parameters model prompt sys) (remote w))
    /\ logs w' = logs w ++ [e1; e2]
    /\ level e1 = API_CALL
    /\ match fst (models_generateContent (text_parameters model prompt sys)
                                         (remote w)) with
       | Fulfilled response =>
           level e2 = API_RESPONSE
           /\ details e2 = ApiResponseDetails (text response)
           /\ console w' = console w
       | Rejected reason =>
           level e2 = ERROR
           /\ details e2 = ErrorDetails (message_or_string reason)
           /\ console w' = console w ++ [("Error generating text content:", reason)]
       end.
Proof.
  intros Hkey.
  destruct (text_call model prompt sys w Hkey)
    as (w' & e1 & e2 & H1 & H2 & H3 & H4 & H5 & _).
  exists w', e1, e2. done.
Qed.

(** The image service asked about an image with the model of the vision
    step: it throws, or resolves to the response of the hosted model, never
    to a list of image URLs. *)
Lemma image_understanding_call prompt part (w : World) :
  exists c w',
    generateImages "gemini-2.5-flash-image" prompt (Some part) w = (c, w')
    /\ match c with
       | Normal (ContentResponse _) => True
       | Normal (ImageUrls _) => False
       | Throw e =>
           e = not_configured
           \/ exists reason, e = "Failed to generate image: " +:+ reason
       end.
Proof.
  unfold Automation.generateImages, observed, bind, Automation.getGeminiClient.
  destruct (negb _); simpl.
  - eexists _, _. split; [reflexivity|]. by left.
  - unfold try_catch, bind, await, throw, ret, console_error, modify.
    destruct (models_generateContent _ _) as [[resp|reason] r']; simpl.
    + eexists _, _. split; [reflexivity|]. done.
    + eexists _, _. split; [reflexivity|]. right. by exists reason.
Qed.

(** X14. The vision step never fails with "Vision integration did not
    return expected text output.": asked about an image, the image service
    does not resolve to a list of URLs, so the branch that throws this error
    is never taken.  The errors of the step are the refusal of an input that
    is not an image, the errors of the image service, and the [TypeError] of
    a response without text. *)
Theorem vision_step_errors cur (w : World) :
  match fst (vision_step cur w) with
  | Normal _ => True
  | Throw e =>
      String.eqb e dead_vision_error = false
      /\ (e = vision_requires_image
          \/ e = not_configured
          \/ (exists reason, e = "Failed to generate image: " +:+ reason)
          \/ e = "Cannot read properties of undefined (reading 'trim')")
  end.
Proof.
  unfold Automation.vision_step.
  destruct (startsWith cur "data:image/"); cbn [negb]; cbv beta iota.
  2: { simpl. split; [reflexivity|]. by left. }
  destruct (image_understanding_call "Describe this image in detail."
              (image_part cur) w) as (c & w' & Hrun & Hc).
  unfold bind at 1. rewrite Hrun.
  destruct c as [[urls|resp]|e]; [done| |].
  - destruct (text resp) as [t|]; simpl; [done|].
    split; [reflexivity|]. by do 3 right.
  - simpl. destruct Hc as [->|[reason ->]].
    + split; [reflexivity|]. right. by left.
    + split; [reflexivity|]. right. right. left. by exists reason.
Qed.

(** X15. Asked for a model that it does not know, the image service
    throws "Failed to generate image: Unsupported image generation model:
    <model>" without calling the hosted model; the error is written to the
    console. *)
Theorem generateImages_unsupported_model model prompt part (w : World) :
  truthy (configured_key env) = true ->
  String.eqb model "imagen-4.0-generate-001" = false ->
  String.eqb model "gemini-2.5-flash-image" = false ->
  exists w',
    generateImages model prompt part w
    = (Throw ("Failed to generate image: Unsupported image generation model: "
              +:+ model), w')
    /\ remote w' = remote w
    /\ logs w' = logs w
    /\ console w'
       = console w ++ [("Error generating image content:",
                        "Unsupported image generation model: " +:+ model)].
Proof.
  intros Hkey H1 H2.
  unfold Automation.generateImages, observed, bind.
  rewrite (getGeminiClient_configured _ Hkey).
  unfold try_catch, throw, bind, console_error, modify.
  rewrite H1, H2. eexists. split; [reflexivity|]. done.
Qed.

(** *** The executor *)

Lemma runAutomation_refuses name steps input (w : World) :
  truthy (API_KEY env) = false ->
  runAutomation name steps input w
  = (Normal tt,
     {| remote := remote w;
        ui := {| automationOutput := EmptyString; isLoading := false;
                 error := Some apiKeyNotConfigured; isApiKeyMissing := true |};
        logs := logs w ++ [starting_entry env name steps input;
                           api_key_missing_entry env];
        console := console w; completed := completed w;
        invocations := invocations w |}).
Proof.
  intros Hkey. unfold Automation.runAutomation.
  unfold try_finally, try_catch, bind, setIsLoading, setError,
    setAutomationOutput, setIsApiKeyMissing, set_ui, log, modify.
  rewrite Hkey. simpl. by rewrite <- app_assoc.
Qed.

(** X16. Without a key in the environment, [runAutomation] refuses to
    start, whatever key local storage holds: it returns after logging the
    start of the run and the missing key, shows the key error, and never
    calls a service. *)
Theorem runAutomation_needs_env_key name steps input (w : World) :
  truthy (API_KEY env) = false ->
  runAutomation name steps input w
  = (Normal tt,
     {| remote := remote w;
        ui := {| automationOutput := EmptyString; isLoading := false;
                 error := Some apiKeyNotConfigured; isApiKeyMissing := true |};
        logs := logs w ++ [starting_entry env name steps input;
                           api_key_missing_entry env];
        console := console w; completed := completed w;
        invocations := invocations w |}).
Proof. apply runAutomation_refuses. Qed.

(** X17. [runAutomation] never throws and always ends with [isLoading]
    reset.  Its log starts with the start entry and ends with one closing
    entry that agrees with the state shown: after a run that shows no error,
    the closing entry is the success entry carrying the output shown and
    [onActionComplete] has been called once; after a run that shows an error,
    the closing entry has level [ERROR] and [onActionComplete] has not been
    called. *)
Theorem runAutomation_always_returns name steps input (w : World) :
  let r := runAutomation name steps input w in
  fst r = Normal tt
  /\ isLoading (ui (snd r)) = false
  /\ exists middle closing,
       logs (snd r)
       = logs w ++ starting_entry env name steps input :: middle ++ [closing]
       /\ match error (ui (snd r)) with
          | None =>
              closing = finished_entry env name (automationOutput (ui (snd r)))
              /\ completed (snd r)
                 = completed w ++ ["Automation " +:+ dquote +:+ name +:+ dquote
                                   +:+ " completed."]
          | Some _ =>
              level closing = ERROR /\ completed (snd r) = completed w
          end.
Proof.
  intros r. subst r. destruct (truthy (API_KEY env)) eqn:Hkey.
  - rewrite (runAutomation_with_key _ _ _ _ Hkey). cbn [fst snd].
    destruct (loop_spec steps 0 input false (prepared name steps input w))
      as (c & w2 & invs & new & Hrun & (Hui & Hdone) & _ & _ & Hlogs & _).
    rewrite Hrun. destruct c as [st|e]; simpl.
    + split; [reflexivity|]. split; [reflexivity|].
      exists new, (finished_entry env name (fst st)).
      rewrite Hlogs, Hui, Hdone. simpl.
      split; [by rewrite <- !app_assoc|]. done.
    + split; [reflexivity|]. split; [reflexivity|].
      exists new, (failed_entry env name e).
      rewrite Hlogs, Hdone. simpl.
      split; [by rewrite <- !app_assoc|]. done.
  - rewrite (runAutomation_refuses _ _ _ _ Hkey). simpl.
    split; [reflexivity|]. split; [reflexivity|].
    exists [], (api_key_missing_entry env). done.
Qed.

(** X18. A run calls the services at most once per step, and exactly once
    per step when it shows no error: there are no retries. *)
Theorem at_most_one_call_per_step name steps input (w : World) :
  let w' := snd (runAutomation name steps input w) in
  exists invs,
    invocations w' = invocations w ++ invs
    /\ List.length invs <= List.length steps
    /\ (error (ui w') = None -> List.length invs = List.length steps).
Proof.
  intros w'. subst w'. destruct (truthy (API_KEY env)) eqn:Hkey.
  - rewrite (runAutomation_with_key _ _ _ _ Hkey). cbn [snd].
    destruct (loop_spec steps 0 input false (prepared name steps input w))
      as (c & w2 & invs & new & Hrun & _ & Hinv & _ & _ & _ & _ & Hc).
    rewrite Hrun. exists invs. destruct c as [st|e]; simpl.
    + destruct Hc as (Hlen & _). split; [exact Hinv|]. split; [lia|done].
    + split; [exact Hinv|]. split; [exact Hc|discriminate].
  - rewrite (runAutomation_refuses _ _ _ _ Hkey). simpl.
    exists []. rewrite app_nil_r. split; [reflexivity|].
    split; [simpl; lia|discriminate].
Qed.

Lemma step_output_trimmed i step cur img out img' (w w' : World) :
  step_body i step cur img w = (Normal (out, img'), w') ->
  exists t, out = trim t.
Proof.
  intros Hrun.
  destruct (find_action (actionId step)) as [action|] eqn:Hfind.
  - destruct (step_body_found i step action cur img w Hfind)
      as (c & w1 & Hrun1 & _ & Hcase).
    rewrite Hrun in Hrun1. injection Hrun1 as <- <-.
    destruct Hcase as [(Href & _) | (oc & mid & _ & _ & t & _ & Hout & _)].
    + destruct Href as [(_ & _ & ?)|(_ & _ & _ & ?)]; discriminate.
    + by exists t.
  - rewrite (step_body_unknown _ _ _ _ _ Hfind) in Hrun. discriminate.
Qed.

Lemma loop_output_trimmed steps : forall i cur img st (w w' : World),
  steps <> [] ->
  loop i steps cur img w = (Normal st, w') ->
  exists t, fst st = trim t.
Proof.
  induction steps as [|step rest IH]; intros i cur img st w w' Hne Hrun; [done|].
  rewrite loop_cons in Hrun.
  destruct (step_body i step cur img w) as [[[out img']|e] w1] eqn:Hstep;
    [|discriminate].
  destruct rest as [|next rest].
  - simpl in Hrun. unfold ret in Hrun. injection Hrun as <- _.
    by apply step_output_trimmed in Hstep.
  - by apply (IH _ _ _ _ _ _ ltac:(done) Hrun).
Qed.

(** X19. The output that a run of at least one step shows on success has
    no white space at its two ends: trimming it changes nothing. *)
Theorem successful_output_is_trimmed name steps input (w : World) :
  steps <> [] ->
  let w' := snd (runAutomation name steps input w) in
  error (ui w') = None ->
  trim (automationOutput (ui w')) = automationOutput (ui w')
  /\ trimmed (automationOutput (ui w')) = true.
Proof.
  intros Hne w'. subst w'. destruct (truthy (API_KEY env)) eqn:Hkey.
  - rewrite (runAutomation_with_key _ _ _ _ Hkey). cbn [snd].
    destruct (loop 0 steps input false (prepared name steps input w))
      as [[st|e] w2] eqn:Hrun; simpl; [|discriminate].
    intros _. destruct (loop_output_trimmed _ _ _ _ _ _ _ Hne Hrun) as [t ->].
    split; [apply StrProps.trim_idem | apply StrProps.trim_is_trimmed].
  - rewrite (runAutomation_refuses _ _ _ _ Hkey). discriminate.
Qed.

(** The first step of a run, when it is not the vision action, makes its
    service call, built from the initial input as it is. *)
Lemma first_call_from_input name step rest action input (w : World) :
  truthy (API_KEY env) = true ->
  find_action (actionId step) = Some action ->
  id action <> "vision-integration" ->
  exists inv invs,
    invocations (snd (runAutomation name (step :: rest) input w))
    = invocations w ++ inv :: invs
    /\ request inv = request_for action step input.
Proof.
  intros Hkey Hfind Hnv.
  rewrite (runAutomation_with_key _ _ _ _ Hkey), loop_cons.
  set (w0 := prepared name (step :: rest) input w).
  destruct (step_body_found 0 step action input false w0 Hfind)
    as (c & w1 & Hrun & _ & Hcase).
  rewrite Hrun.
  destruct Hcase as [(Href & _) | (oc & mid & Hinv & _)].
  { destruct Href as [(? & _)|(_ & _ & ? & _)]; done. }
  exists {| request := request_for action step input; outcome := oc |}.
  destruct c as [next|e].
  - destruct (loop_spec rest 1 (fst next) (snd next) w1)
      as (c2 & w2 & invs & new & Hrun2 & _ & Hinv2 & _).
    rewrite Hrun2. exists invs. split; [|reflexivity].
    destruct c2; simpl; by rewrite Hinv2, Hinv, <- app_assoc.
  - exists []. split; [|reflexivity]. simpl. by rewrite Hinv.
Qed.

(** X20. [runAutomation] checks neither the steps nor the input itself:
    the two checks are those of [handleRunAutomation].  With at least one
    step and an input that is not blank, [handleRunAutomation] does what
    [runAutomation] does; with no step it reports the missing step also
    when the input is blank.  [runAutomation] itself, given no step,
    succeeds without a service call and shows the input as the output;
    and given any input, also a blank one, and a first step that is not
    the vision action, it makes the service call of that step, built from
    that input. *)
Theorem runAutomation_does_not_validate name steps input (w : World) :
  (steps <> [] /\ blank input = false ->
   handleRunAutomation name steps input w = runAutomation name steps input w)
  /\ (steps = [] /\ blank input = true ->
      error (ui (snd (handleRunAutomation name steps input w)))
      = Some "Please add at least one step to the automation.")
  /\ (truthy (API_KEY env) = true ->
      let w' := snd (runAutomation name [] input w) in
      error (ui w') = None
      /\ automationOutput (ui w') = input
      /\ invocations w' = invocations w)
  /\ (forall step rest action,
        truthy (API_KEY env) = true ->
        steps = step :: rest ->
        find_action (actionId step) = Some action ->
        id action <> "vision-integration" ->
        exists inv invs,
          invocations (snd (runAutomation name steps input w))
          = invocations w ++ inv :: invs
          /\ request inv = request_for action step input).
Proof.
  split; [|split; [|split]].
  - intros [Hsteps Hblank]. unfold Automation.handleRunAutomation.
    destruct steps as [|s rest]; [done|]. simpl Nat.eqb. cbv iota.
    by rewrite AutomationProps.trim_truthy, Hblank.
  - intros [-> _]. reflexivity.
  - intros Hkey. rewrite (runAutomation_with_key _ _ _ _ Hkey). done.
  - intros step rest action Hkey -> Hfind Hnv.
    by apply first_call_from_input.
Qed.

Lemma includes_append a s p :
  includes s p = true -> includes (a +:+ s) p = true.
Proof.
  intros H. induction a as [|x a IH]; [exact H|].
  change (includes (String x (a +:+ s)) p = true).
  cbn [includes]. rewrite IH. apply orb_true_r.
Qed.

(** X21. When the first step is a plain text action and the hosted model
    rejects its call with a reason that contains "API Key is not
    configured", the run is shown as a missing key: the error displayed is
    the key message and [isApiKeyMissing] is set, while the log keeps the
    error of the service. *)
Theorem rejection_shown_as_missing_key name step rest action input reason
        (w : World) :
  truthy (API_KEY env) = true ->
  find_action (actionId step) = Some action ->
  String.eqb (id action) "vision-integration" = false ->
  String.eqb (id action) "social-commenter" = false ->
  fst (models_generateContent
         (text_parameters DEFAULT_AI_MODEL input (description action)) (remote w))
  = Rejected reason ->
  includes reason key_phrase = true ->
  let w' := snd (runAutomation name (step :: rest) input w) in
  error (ui w') = Some apiKeyNotConfigured
  /\ isApiKeyMissing (ui w') = true
  /\ last (logs w')
     = Some (failed_entry env name ("Failed to generate content: " +:+ reason)).
Proof.
  intros Hkey Hfind Hv Hs Hrej Hinc w'. subst w'.
  rewrite (runAutomation_with_key _ _ _ _ Hkey), loop_cons.
  assert (Hstep : exists w2,
            step_body 0 step input false (prepared name (step :: rest) input w)
            = (Throw ("Failed to generate content: " +:+ reason), w2)).
  { unfold Automation.step_body. rewrite Hfind, AutomationProps.bind_log.
    set (w1 := logged _ _).
    destruct (text_call DEFAULT_AI_MODEL input (description action) w1
                (env_key_configured Hkey))
      as (w2 & e1 & e2 & Hrun & _).
    change (remote w1) with (remote w) in Hrun. rewrite Hrej in Hrun.
    exists w2. unfold bind. rewrite Hv, Hs. unfold text_step, bind.
    by rewrite Hrun. }
  destruct Hstep as [w2 ->].
  unfold Observe.concluded, shown_error.
  assert (H : includes ("Failed to generate content: " +:+ reason)
                       "API Key is not configured" = true)
    by (apply includes_append; exact Hinc).
  rewrite H. simpl. split; [reflexivity|]. split; [reflexivity|]. apply last_snoc.
Qed.

(** X22. A step that was added and never given an action makes the run
    fail at that step: when the steps before it complete, the run shows the
    error of an invalid (empty) action id with the number of the blank step,
    after the service calls of the earlier steps. *)
Theorem blank_step_fails_run name steps input st (w w1 : World) :
  truthy (API_KEY env) = true ->
  find_action EmptyString = None ->
  List.length steps < 3 ->
  loop 0 steps input false (prepared name (addStep steps) input w)
    = (Normal st, w1) ->
  let w' := snd (runAutomation name (addStep steps) input w) in
  error (ui w')
  = Some (shown_error ("Invalid action ID:  at step "
                       +:+ of_nat (List.length steps + 1)))
  /\ invocations w' = invocations w1.
Proof.
  intros Hkey Hfind Hlen Hpre w'. subst w'.
  assert (Hadd : addStep steps = steps ++ [newStep]).
  { unfold addStep. by destruct (Nat.ltb_spec (List.length steps) 3); [|lia]. }
  rewrite Hadd in *.
  rewrite (runAutomation_with_key _ _ _ _ Hkey).
  rewrite (AutomationProps.loop_fails_at _ _ _ _ steps newStep [] input st
             (invalid_action_message newStep (List.length steps)) _ w1 w1 Hpre).
  - done.
  - by apply step_body_unknown.
Qed.

End Run.

End RunProps.

(* ===================================================================== *)
(** ** Properties of validateApiKey *)
(* ===================================================================== *)

Module ValidationProps.

Import Str Automation Service Validation.

Section Validate.

Context {Remote : Type}.
Variable test_call : string -> Remote -> Answer * Remote.
Variable env : Env.

Local Abbreviation validateApiKey := (validateApiKey Remote test_call env).

(** X23. [validateApiKey] never resolves to [false].  Without any key it
    throws the not-configured error after logging one entry of level
    [API_KEY_MISSING], and makes no call.  With a key it makes one test call
    with that key: when the call is answered it returns [true] and logs an
    [API_CALL] and an [INFO] entry; when the call is refused it logs an
    [API_CALL] and an [ERROR] entry, writes the error to the console and
    throws the message chosen for the error. *)
Theorem validateApiKey_outcomes dynamicApiKey (w : World Remote) :
  let key := key_for env dynamicApiKey in
  let r := validateApiKey dynamicApiKey w in
  match fst r with Normal b => b = true | Throw _ => True end
  /\ (truthy key = false ->
      fst r = Throw not_configured
      /\ v_remote (snd r) = v_remote w
      /\ v_console (snd r) = v_console w
      /\ exists e, v_logs (snd r) = v_logs w ++ [e]
                   /\ v_level e = API_KEY_MISSING)
  /\ (truthy key = true ->
      v_remote (snd r) = snd (test_call key (v_remote w))
      /\ exists e1 e2,
           v_logs (snd r) = v_logs w ++ [e1; e2]
           /\ v_level e1 = API_CALL
           /\ match fst (test_call key (v_remote w)) with
              | Answered =>
                  fst r = Normal true /\ v_level e2 = INFO
                  /\ v_console (snd r) = v_console w
              | Refused error =>
                  fst r = Throw (failure_message error) /\ v_level e2 = ERROR
                  /\ v_details e2 = FailureDetails (failure_message error) "invalid"
                  /\ v_console (snd r)
                     = v_console w ++ [("API Key validation failed:", error)]
              end).
Proof.
  intros key r. subst key r. unfold Validation.validateApiKey.
  destruct (truthy (key_for env dynamicApiKey)) eqn:Hkey; simpl negb; cbv iota.
  - destruct (test_call _ _) as [[|error] r'] eqn:Hcall; simpl.
    + split; [reflexivity|]. split; [discriminate|]. intros _.
      split; [reflexivity|]. eexists _, _. done.
    + split; [exact I|]. split; [discriminate|]. intros _.
      split; [reflexivity|]. eexists _, _. done.
  - simpl. split; [exact I|]. split; [|discriminate]. intros _.
    split; [reflexivity|]. split; [reflexivity|]. split; [reflexivity|].
    eexists. done.
Qed.

(** X24. The key that is validated is the key passed to [validateApiKey]
    when there is one; otherwise the key in local storage when there is
    one; otherwise the key of the environment: the test call is made with
    that key. *)
Theorem validated_key_precedence dynamicApiKey (w : World Remote) :
  let w' := snd (validateApiKey dynamicApiKey w) in
  (forall key, dynamicApiKey = Some key -> truthy key = true ->
               v_remote w' = snd (test_call key (v_remote w)))
  /\ (truthy (default EmptyString dynamicApiKey) = false ->
      forall key, apiKey_gemini env = Some key -> truthy key = true ->
                  v_remote w' = snd (test_call key (v_remote w)))
  /\ (truthy (default EmptyString dynamicApiKey) = false ->
      truthy (default EmptyString (apiKey_gemini env)) = false ->
      truthy (API_KEY env) = true ->
      v_remote w' = snd (test_call (API_KEY env) (v_remote w))).
Proof.
  intros w'. subst w'.
  assert (Hcall : forall key,
            key_for env dynamicApiKey = key -> truthy key = true ->
            v_remote (snd (validateApiKey dynamicApiKey w))
            = snd (test_call key (v_remote w))).
  { intros key Hkey Ht. unfold Validation.validateApiKey.
    rewrite Hkey, Ht. simpl negb. cbv iota.
    by destruct (test_call key (v_remote w)) as [[|error] r']. }
  unfold key_for, configured_key, or_else in Hcall. split; [|split].
  - intros key -> Hk. apply Hcall; [|exact Hk]. simpl. by rewrite Hk.
  - intros Hd key Hs Hk. apply Hcall; [|exact Hk].
    rewrite Hd, Hs. simpl. by rewrite Hk.
  - intros Hd Hs Hk. apply Hcall; [|exact Hk]. by rewrite Hd, Hs.
Qed.

Lemma lower_prefix p : forall s,
  String.prefix p s = true ->
  String.prefix (toLowerCase p) (toLowerCase s) = true.
Proof.
  induction p as [|a p IH]; intros [|b s]; simpl; try done.
  destruct (ascii_dec a b) as [->|]; [|done].
  intros H. destruct (ascii_dec (lower_char b) (lower_char b)); [|done].
  by apply IH.
Qed.

Lemma lower_includes p : forall s,
  includes s p = true -> includes (toLowerCase s) (toLowerCase p) = true.
Proof.
  induction s as [|b s IH]; cbn [includes toLowerCase].
  - rewrite !orb_false_r. intros H. exact (lower_prefix p EmptyString H).
  - intros [H|H]%orb_prop.
    + apply (lower_prefix p (String b s)) in H. cbn [toLowerCase] in H.
      by rewrite H.
    + rewrite (IH H). apply orb_true_r.
Qed.

Lemma includes_to_string error p :
  includes (or_else (error_message error) (error_to_string error)) p = true ->
  includes (error_to_string error) p = true.
Proof.
  unfold or_else, error_to_string.
  destruct (truthy (error_message error)); [|done].
  destruct (truthy (error_name error)); [|done].
  intros H. by do 2 apply RunProps.includes_append.
Qed.

Lemma failure_message_generic error :
  includes (toLowerCase (error_to_string error)) "invalid api key" = false ->
  includes ("API key validation failed: "
            +:+ or_else (error_message error) (error_to_string error))
           "Invalid API key" = false.
Proof.
  intros Hlow.
  destruct (includes (or_else (error_message error) (error_to_string error))
                     "Invalid API key") eqn:E.
  - apply includes_to_string, lower_includes in E.
    change (toLowerCase "Invalid API key") with "invalid api key" in E.
    congruence.
  - simpl. exact E.
Qed.

(** X25. No error that [validateApiKey] throws contains "Invalid API
    key": an error of the service whose text contains these words, in any
    letter case, is reported with the message "The provided API key is
    invalid" or with the quota message instead.  (The caller in
    components/ApiConfigurator.tsx looks for "Invalid API key" in the
    message.) *)
Theorem validateApiKey_never_says_invalid_api_key dynamicApiKey (w : World Remote) :
  match fst (validateApiKey dynamicApiKey w) with
  | Normal _ => True
  | Throw message => includes message "Invalid API key" = false
  end.
Proof.
  unfold Validation.validateApiKey.
  destruct (negb (truthy (key_for env dynamicApiKey))); [reflexivity|].
  destruct (test_call _ _) as [[|error] r']; [exact I|]. cbn [fst].
  unfold failure_message.
  destruct (_ && _); [reflexivity|].
  destruct (includes (toLowerCase (error_to_string error)) "invalid api key")
    eqn:Hlow.
  - rewrite orb_true_r. reflexivity.
  - rewrite orb_false_r.
    destruct (includes _ "api key not valid"); [reflexivity|].
    destruct (includes _ "requested entity was not found"); [reflexivity|].
    destruct (includes _ "api key is not configured"); [reflexivity|].
    by apply failure_message_generic.
Qed.

End Validate.

End ValidationProps.

(* ===================================================================== *)
(** ** The further properties on concrete inputs *)
(* ===================================================================== *)

Module MoreChecks.

Import Str Shape Automation Observe Service Builder AppLog Scenario Fixtures.

(** [emit_isolates_listeners] on the listeners 3, 7 and 5, where 3 and 5
    throw. *)
Lemma emit_isolates_listeners_witness :
  exists r',
    EventEmitter.emit DebugLogEntry string (list DebugLogEntry)
                      (bodies string 7 noisy) type_error_message
                      "debugLog" (ui_entry 1) app_bus
    = (Normal tt, r')
    /\ EventEmitter.invoked r'
       = [(3, ui_entry 1); (7, ui_entry 1); (5, ui_entry 1)].
Proof.
  destruct (BusProps.emit_isolates_listeners
              (bodies string 7 noisy) type_error_message
              "debugLog" (ui_entry 1) app_bus eq_refl)
    as (r' & H1 & H2 & _).
  exists r'. split; [exact H1|]. rewrite H2. simpl.
  rewrite lookup_singleton_eq. reflexivity.
Defined.

(** [emit_after_off]: listener 7 unsubscribed from the listeners 3, 7
    and 5. *)
Lemma emit_after_off_witness :
  exists b r',
    EventEmitter.off "debugLog" 7 (EventEmitter.bus (EventEmitter.world app_bus))
    = (Normal tt, b)
    /\ EventEmitter.emit DebugLogEntry string (list DebugLogEntry)
                         (bodies string 7 noisy) type_error_message
                         "debugLog" (ui_entry 1) (on_bus (fun _ => b) app_bus)
       = (Normal tt, r')
    /\ EventEmitter.invoked r' = [(3, ui_entry 1); (5, ui_entry 1)].
Proof.
  destruct (BusProps.emit_after_off
              (bodies string 7 noisy) type_error_message
              "debugLog" 7 (ui_entry 1) app_bus eq_refl)
    as (b & r' & H1 & H2 & H3 & _).
  exists b, r'. split; [exact H1|]. split; [exact H2|]. rewrite H3. simpl.
  rewrite lookup_singleton_eq. reflexivity.
Defined.

(** [emit_after_on]: listener 9 subscribed after the listeners 3, 7
    and 5. *)
Lemma emit_after_on_witness :
  exists unsubscribe b r',
    EventEmitter.on "debugLog" 9 (EventEmitter.bus (EventEmitter.world app_bus))
    = (Normal unsubscribe, b)
    /\ EventEmitter.emit DebugLogEntry string (list DebugLogEntry)
                         (bodies string 7 noisy) type_error_message
                         "debugLog" (ui_entry 1) (on_bus (fun _ => b) app_bus)
       = (Normal tt, r')
    /\ EventEmitter.invoked r'
       = [(3, ui_entry 1); (7, ui_entry 1); (5, ui_entry 1); (9, ui_entry 1)].
Proof.
  destruct (BusProps.emit_after_on
              (bodies string 7 noisy) type_error_message
              "debugLog" 9 (ui_entry 1) app_bus eq_refl)
    as (u & b & r' & H1 & H2 & H3).
  exists u, b, r'. split; [exact H1|]. split; [exact H2|]. rewrite H3. simpl.
  rewrite lookup_singleton_eq. reflexivity.
Defined.

(** [off_not_registered]: unsubscribing listener 9, which was never
    subscribed, from the listeners 3, 7 and 5. *)
Lemma off_not_registered_witness :
  EventEmitter.off "debugLog" 9 (EventEmitter.bus (EventEmitter.world app_bus))
  = (Normal tt, EventEmitter.bus (EventEmitter.world app_bus)).
Proof.
  apply BusProps.off_not_registered; [reflexivity|].
  simpl. rewrite lookup_singleton_eq. simpl.
  intros H. repeat (apply elem_of_cons in H as [H|H]; [discriminate H|]).
  by apply elem_of_nil in H.
Defined.

(** [handleLogDebug_sequence]: 60 entries handled from an empty buffer
    leave 50. *)
Lemma handleLogDebug_sequence_witness :
  List.length (fold_left (fun logs entry => handleLogDebug entry logs)
                         (map ui_entry (seq 0 60)) [])
  = 50
  /\ hd_error (fold_left (fun logs entry => handleLogDebug entry logs)
                         (map ui_entry (seq 0 60)) [])
     = Some (ui_entry 10).
Proof.
  rewrite (AppLogProps.handleLogDebug_sequence (map ui_entry (seq 0 60)) [])
    by (simpl; lia).
  split; vm_compute; reflexivity.
Defined.

(** [emit_reaches_app_logs]: the listener 7 of the application between two
    listeners that throw, on a full buffer. *)
Lemma emit_reaches_app_logs_witness :
  exists r',
    EventEmitter.emit DebugLogEntry string (list DebugLogEntry)
                      (bodies string 7 noisy) type_error_message
                      "debugLog" (ui_entry 1) app_bus
    = (Normal tt, r')
    /\ last (EventEmitter.heap (EventEmitter.world r')) = Some (ui_entry 1)
    /\ List.length (EventEmitter.heap (EventEmitter.world r')) <= 50.
Proof.
  destruct (AppLogProps.emit_reaches_app_logs 7 noisy type_error_message
              (fun _ _ _ => eq_refl) "debugLog" (ui_entry 1) [3] [5] app_bus)
    as (r' & H1 & _ & H2 & H3).
  - simpl. apply lookup_singleton_eq.
  - intros H. apply list_elem_of_singleton in H. discriminate H.
  - intros H. apply list_elem_of_singleton in H. discriminate H.
  - exists r'. split; [exact H1|]. split; [exact H2 | exact H3].
Defined.

(** [image_part_of_data_url] on a PNG data URL, as the image service builds
    them. *)
Lemma image_part_of_data_url_witness :
  image_part "data:image/png;base64,iVBORw0KGgo="
  = {| mimeType := Some "image/png"; data := Some "iVBORw0KGgo=" |}.
Proof.
  apply (StrProps.image_part_of_data_url "image/png" "iVBORw0KGgo=");
    reflexivity.
Defined.

(** [services_without_key] in an environment without any key. *)
Lemma services_without_key_witness :
  exists w',
    generateTextContent Script scripted no_key_env "gemini-2.5-flash" "hello"
                        "be brief" (start [says "unused"])
    = (Throw not_configured, w')
    /\ remote w' = [says "unused"] /\ logs w' = [].
Proof.
  destruct (RunProps.services_without_key scripted no_images no_key_env
              "gemini-2.5-flash" "hello" "be brief" None (start [says "unused"])
              eq_refl eq_refl)
    as ((w' & H1 & H2 & H3 & _) & _).
  exists w'. split; [exact H1|]. split; [exact H2 | exact H3].
Defined.

(** [generateTextContent_settles] when the hosted model rejects. *)
Lemma generateTextContent_settles_witness :
  exists w',
    generateTextContent Script scripted env0 "gemini-2.5-flash" "hello"
                        "be brief" (start [Rejected "timeout"])
    = (Throw "Failed to generate content: timeout", w')
    /\ map level (logs w') = [API_CALL; ERROR].
Proof.
  destruct (RunProps.generateTextContent_settles scripted env0
              "gemini-2.5-flash" "hello" "be brief" (start [Rejected "timeout"])
              eq_refl)
    as (w' & e1 & e2 & H1 & _ & H3 & H4 & H5 & _).
  exists w'. split; [exact H1|].
  rewrite H3. simpl. by rewrite H4, H5.
Defined.

(** [generateImages_unsupported_model] for a model name that the service
    does not know. *)
Lemma generateImages_unsupported_model_witness :
  exists w',
    generateImages Script scripted no_images env0 "dall-e" "a cat" None (start [])
    = (Throw "Failed to generate image: Unsupported image generation model: dall-e",
       w')
    /\ remote w' = [].
Proof.
  destruct (RunProps.generateImages_unsupported_model scripted no_images env0
              "dall-e" "a cat" None (start []) eq_refl eq_refl eq_refl)
    as (w' & H1 & H2 & _).
  exists w'. split; [exact H1 | exact H2].
Defined.

(** [runAutomation_needs_env_key] with a key in local storage only. *)
Lemma runAutomation_needs_env_key_witness :
  let r := runAutomation Script scripted no_images stored_key_env catalog "demo"
                         [step "summarize"] "hello" (start [says "unused"]) in
  error (ui (snd r)) = Some apiKeyNotConfigured
  /\ invocations (snd r) = []
  /\ remote (snd r) = [says "unused"].
Proof.
  rewrite (RunProps.runAutomation_needs_env_key scripted no_images
             stored_key_env catalog "demo" [step "summarize"] "hello"
             (start [says "unused"]) eq_refl).
  repeat split.
Defined.

(** [successful_output_is_trimmed] on a reply with white space around it. *)
Lemma successful_output_is_trimmed_witness :
  automationOutput (ui (snd (run [step "summarize"] "hello" [says "  short  "])))
  = "short"
  /\ trim (automationOutput
             (ui (snd (run [step "summarize"] "hello" [says "  short  "]))))
     = automationOutput
         (ui (snd (run [step "summarize"] "hello" [says "  short  "]))).
Proof.
  split; [reflexivity|].
  apply (RunProps.successful_output_is_trimmed scripted no_images env0 catalog
           "demo" [step "summarize"] "hello" (start [says "  short  "])).
  - discriminate.
  - reflexivity.
Defined.

(** [rejection_shown_as_missing_key] when the hosted model rejects with the
    words of the key error. *)
Lemma rejection_shown_as_missing_key_witness :
  let w := snd (run [step "summarize"] "hello"
                    [Rejected "API Key is not configured on the server"]) in
  error (ui w) = Some apiKeyNotConfigured
  /\ isApiKeyMissing (ui w) = true.
Proof.
  destruct (RunProps.rejection_shown_as_missing_key scripted no_images env0
              catalog "demo" (step "summarize") []
              {| id := "summarize"; name := "Summariser";
                 description := "Summarise any text or webpage (3-5 key ideas)." |}
              "hello" "API Key is not configured on the server"
              (start [Rejected "API Key is not configured on the server"])
              eq_refl eq_refl eq_refl eq_refl eq_refl eq_refl)
    as (H1 & H2 & _).
  split; [exact H1 | exact H2].
Defined.

(** [blank_step_fails_run]: one step with an action, then a step that was
    added and left blank. *)
Lemma blank_step_fails_run_witness :
  let w := snd (run (addStep [step "summarize"]) "hello" [says "ok"]) in
  error (ui w) = Some "Failed to run automation: Invalid action ID:  at step 2"
  /\ List.length (invocations w) = 1.
Proof.
  pose (w0 := prepared env0 "demo" (addStep [step "summarize"]) "hello"
                       (start [says "ok"])).
  pose (w1 := snd (loop Script scripted no_images env0 catalog 0
                        [step "summarize"] "hello" false w0)).
  assert (Hpre : loop Script scripted no_images env0 catalog 0
                      [step "summarize"] "hello" false w0
                 = (Normal ("ok", false), w1))
    by (vm_compute; reflexivity).
  destruct (RunProps.blank_step_fails_run scripted no_images env0 catalog
              "demo" [step "summarize"] "hello" ("ok", false)
              (start [says "ok"]) w1 eq_refl eq_refl ltac:(simpl; lia) Hpre)
    as (H1 & H2).
  split; [exact H1|]. exact (f_equal (@List.length _) H2).
Defined.

End MoreChecks.
